(** * pl-code: highlight-line parsing and line highlighting

    A shallow embedding of [elements/pl-code/pl-code.py]: the parser of the
    [highlight-lines] attribute, the pass-through lexer, the line
    highlighting step of the HTML formatter, the attribute checks of
    [prepare], and of [render] the steps up to the call of the
    highlighter: where the code comes from, its newlines, the lexer and
    the options of the formatter.

    Python [str] values are modelled as lists of characters; a character is
    a code point below 256.  Python [int] is [Z].  Exceptions are values of
    an error monad.  The built-ins the element calls ([str.split],
    [str.strip], [str.isspace], [int], [range], [map]) are modelled as
    CPython computes them on such strings; the limit that later versions
    of CPython put on the number of digits [int] reads is not modelled.
    The helpers of the [prairielearn] library and the lexer registry of
    pygments are parameters of [prepare]. *)

From Stdlib Require Import ZArith Ascii String List Lia Bool.
From stdpp Require Import base tactics option list list_numbers gmap strings.

Local Open Scope Z_scope.
Local Open Scope list_scope.

(** ** Python strings *)

Abbreviation str := (list ascii).

(** A string literal of the source, as a [str]. *)
Definition lit (s : string) : str := list_ascii_of_string s.

(** Code point of a character ([ord]). *)
Definition ord (c : ascii) : Z := Z.of_N (N_of_ascii c).

Definition LF : ascii := "010"%char.
Definition CR : ascii := "013"%char.
Definition DQUOTE : ascii := "034"%char.
Definition COMMA : ascii := ","%char.
Definition HYPHEN : ascii := "-"%char.
Definition PLUS : ascii := "+"%char.
Definition UNDERSCORE : ascii := "_"%char.

(** [ch.isspace()] on code points below 256: the characters removed by
    [str.strip()] and tested by [str.isspace()]. *)
Definition char_isspace (c : ascii) : bool :=
  let n := ord c in
  ((9 <=? n) && (n <=? 13)) || ((28 <=? n) && (n <=? 32))
  || (n =? 133) || (n =? 160).

(** The whitespace [int()] skips around a number: blank, tab, newline,
    vertical tab, form feed and carriage return, and the non-ASCII spaces,
    which [int()] first turns into blanks.  The separators 28..31 are not
    skipped. *)
Definition int_isspace (c : ascii) : bool :=
  let n := ord c in
  ((9 <=? n) && (n <=? 13)) || (n =? 32) || (n =? 133) || (n =? 160).

Definition is_digit (c : ascii) : bool :=
  let n := ord c in (48 <=? n) && (n <=? 57).

Definition digit_value (c : ascii) : Z := ord c - 48.

(** [s.isspace()]: at least one character, and all of them whitespace. *)
Definition isspace (s : str) : bool :=
  match s with
  | [] => false
  | _ => forallb char_isspace s
  end.

(** [s.lstrip()], [s.rstrip()], [s.strip()]. *)
Fixpoint lstrip (s : str) : str :=
  match s with
  | c :: r => if char_isspace c then lstrip r else s
  | [] => []
  end.

Definition rstrip (s : str) : str := rev (lstrip (rev s)).

Definition strip (s : str) : str := rstrip (lstrip s).

(** [s.split(sep)] for a one-character separator: every occurrence of the
    separator ends a piece, so the result is never empty and [''.split(sep)]
    is [['']]. *)
Fixpoint split (sep : ascii) (s : str) : list str :=
  match s with
  | [] => [[]]
  | c :: r =>
      if decide (c = sep) then [] :: split sep r
      else match split sep r with
           | piece :: pieces => (c :: piece) :: pieces
           | [] => [[c]]
           end
  end.

(** [sep.join(pieces)]. *)
Fixpoint join (sep : str) (pieces : list str) : str :=
  match pieces with
  | [] => []
  | [p] => p
  | p :: ps => p ++ sep ++ join sep ps
  end.

(** ** [int(s)] in base 10

    After the leading whitespace and an optional sign, the digits are
    scanned; single underscores may separate digits.  [scan_digits] is the
    digit loop: [prev] tells whether the previous character was an
    underscore, [acc] is the value read so far.  It stops at the first
    character that is neither a digit nor an underscore and returns the
    rest. *)
Fixpoint scan_digits (prev : bool) (acc : Z) (s : str) : option (Z * str) :=
  match s with
  | [] => if prev then None else Some (acc, [])
  | c :: r =>
      if is_digit c then scan_digits false (10 * acc + digit_value c) r
      else if decide (c = UNDERSCORE) then
        if prev then None else scan_digits true acc r
      else if prev then None else Some (acc, s)
  end.

Fixpoint skip_int_space (s : str) : str :=
  match s with
  | c :: r => if int_isspace c then skip_int_space r else s
  | [] => []
  end.

(** The number after the sign: it starts with a digit. *)
Definition scan_number (s : str) : option (Z * str) :=
  match s with
  | c :: _ => if is_digit c then scan_digits false 0 s else None
  | [] => None
  end.

(** The optional sign: whether it is a minus, and what follows it. *)
Definition split_sign (s : str) : bool * str :=
  match s with
  | c :: r =>
      if decide (c = PLUS) then (false, r)
      else if decide (c = HYPHEN) then (true, r)
      else (false, s)
  | [] => (false, s)
  end.

(** [int(s)]; [None] stands for [ValueError]. *)
Definition py_int (s : str) : option Z :=
  let s := skip_int_space s in
  let '(negative, s) := split_sign s in
  match scan_number s with
  | Some (n, rest) =>
      match skip_int_space rest with
      | [] => Some (if negative then - n else n)
      | _ :: _ => None
      end
  | None => None
  end.

(** [list(range(start, stop))]. *)
Definition py_range (start stop : Z) : list Z := seqZ start (stop - start).

(** ** [parse_highlight_lines] *)

(** The loop over the components; [lines] is the list built so far.
    [None] is the source's [return None]. *)
Fixpoint parse_components (components : list str) (lines : list Z)
  : option (list Z) :=
  match components with
  | [] => Some lines
  | component :: components =>
      let component := strip component in
      match py_int component with
      | Some line => parse_components components (lines ++ [line])
      | None =>
          let numbers := split HYPHEN component in
          match numbers with
          | [n0; n1] =>
              match py_int n0 with
              | Some start =>
                  match py_int n1 with
                  | Some end_ =>
                      parse_components components
                        (lines ++ py_range start (end_ + 1))
                  | None => None
                  end
              | None => None
              end
          | _ => None
          end
      end
  end.

Definition parse_highlight_lines (highlight_lines : str) : option (list Z) :=
  parse_components (split COMMA highlight_lines) [].

(** ** Exceptions *)

Inductive exn : Type :=
| Exception (msg : str)
| TypeError (msg : str)
| IndexError (msg : str).

Inductive Result (A : Type) : Type :=
| Ok (a : A)
| Raise (e : exn).

Arguments Ok {A} a.
Arguments Raise {A} e.

Definition bind {A B} (m : Result A) (k : A -> Result B) : Result B :=
  match m with
  | Ok a => k a
  | Raise e => Raise e
  end.

Notation "x <- m ;; k" := (bind m (fun x => k))
  (at level 100, m at next level, k at level 200, right associativity).
Notation "m ;;; k" := (bind m (fun _ => k))
  (at level 100, k at level 200, right associativity).

Definition raises {A} (m : Result A) : bool :=
  match m with
  | Ok _ => false
  | Raise _ => true
  end.

(** ** Lexers *)

(** The token types of pygments ([pygments.token]). *)
Inductive TokenType : Type :=
| Token_Text | Token_Whitespace | Token_Escape | Token_Error | Token_Other
| Token_Keyword | Token_Name | Token_Literal | Token_String | Token_Number
| Token_Punctuation | Token_Operator | Token_Comment | Token_Generic.

(** An unprocessed token: position, type, text. *)
Definition token : Type := Z * TokenType * str.

Definition token_type (tok : token) : TokenType := snd (fst tok).
Definition token_text (tok : token) : str := snd tok.

(** The interface of [pygments.lexer.Lexer] that the element overrides. *)
Class Lexer (L : Type) : Type := {
  get_tokens_unprocessed : L -> str -> list token
}.

(** [NoHighlightingLexer]; [compress] is the option read by [__init__]. *)
Record NoHighlightingLexer : Type := {
  compress : str
}.

#[export] Instance NoHighlightingLexer_Lexer : Lexer NoHighlightingLexer := {
  get_tokens_unprocessed := fun _ text => [(0, Token_Text, text)]
}.

(** The text a token stream stands for. *)
Definition tokens_text (toks : list token) : str :=
  concat (map token_text toks).

(** ** [HighlightingHtmlFormatter] *)

Definition HIGHLIGHT_LINES_COLOR_DEFAULT : str := lit "#b3d7ff".

Record HighlightingHtmlFormatter : Type := {
  hl_lines : gset Z;
  hl_color : str
}.

(** The f-string of [_highlight_lines]. *)
Definition highlighted_line (hl_color value : str) : str :=
  lit "<span class=" ++ [DQUOTE] ++ lit "pl-code-highlighted-line"
  ++ [DQUOTE] ++ lit " style=" ++ [DQUOTE] ++ lit "background-color: "
  ++ hl_color ++ [DQUOTE] ++ lit ">" ++ value ++ lit "</span>".

(** The generator, as the list of what it yields; [i] is the index
    [enumerate] has reached. *)
Fixpoint highlight_lines_from (self : HighlightingHtmlFormatter) (i : Z)
    (tokensource : list (Z * str)) : list (Z * str) :=
  match tokensource with
  | [] => []
  | (t, value) :: tokensource =>
      (if decide (t ≠ 1) then [(t, value)] else [])
      ++ (if decide (i + 1 ∈ hl_lines self)
          then [(1, highlighted_line (hl_color self) value)]
          else [(1, value)])
      ++ highlight_lines_from self (i + 1) tokensource
  end.

Definition _highlight_lines (self : HighlightingHtmlFormatter)
    (tokensource : list (Z * str)) : list (Z * str) :=
  highlight_lines_from self 0 tokensource.

(** What the formatter writes: the pieces of the stream, in order. *)
Definition written (source : list (Z * str)) : str :=
  concat (map snd source).

(** [hay.startswith(needle)]. *)
Fixpoint starts_with (needle hay : str) : bool :=
  match needle, hay with
  | [], _ => true
  | c :: needle, d :: hay =>
      if decide (c = d) then starts_with needle hay else false
  | _ :: _, [] => false
  end.

(** Number of positions of [hay] at which [needle] starts. *)
Fixpoint count_occurrences (needle hay : str) : nat :=
  match hay with
  | [] => 0%nat
  | _ :: rest =>
      ((if starts_with needle hay then 1 else 0)
       + count_occurrences needle rest)%nat
  end.

(** The opening of a highlight wrapper span. *)
Definition wrapper_open : str :=
  lit "<span class=" ++ [DQUOTE] ++ lit "pl-code-highlighted-line"
  ++ [DQUOTE].

(** ** [prepare] *)

Definition LANGUAGE_DEFAULT : option str := None.
Definition SOURCE_FILE_NAME_DEFAULT : option str := None.
Definition HIGHLIGHT_LINES_DEFAULT : option str := None.

(** The parsed element: its attributes and the text before its first
    child ([element.text]; the parser gives [None] when there is none,
    never the empty string). *)
Record Element : Type := {
  attrib : gmap str str;
  text : option str
}.

(** An entry of [pygments.lexers.get_all_lexers()]:
    [(name, aliases, filenames, mimetypes)]. *)
Record lexer_info : Type := {
  lexer_name : str;
  lexer_aliases : list str;
  lexer_filenames : list str;
  lexer_mimetypes : list str
}.

(** The two kinds of object that [prepare] hands to [map]. *)
Inductive pyobj : Type :=
| PyFunction (f : lexer_info -> Result str)
| PyGenerator (items : list lexer_info).

(** A [map] object: the function and the iterator it holds. *)
Record map_object : Type := {
  map_func : pyobj;
  map_iter : list lexer_info
}.

(** [map(func, iterable)]: the constructor takes an iterator of its second
    argument at once, and raises [TypeError] when that is not iterable. *)
Definition py_map (func iterable : pyobj) : Result map_object :=
  match iterable with
  | PyGenerator items => Ok {| map_func := func; map_iter := items |}
  | PyFunction _ =>
      Raise (TypeError (lit "'function' object is not iterable"))
  end.

(** Running a [map] object to its end, as [str.join] does. *)
Fixpoint map_items (func : pyobj) (items : list lexer_info)
  : Result (list str) :=
  match items with
  | [] => Ok []
  | item :: items =>
      match func with
      | PyFunction f =>
          v <- f item;;
          vs <- map_items func items;;
          Ok (v :: vs)
      | PyGenerator _ =>
          Raise (TypeError (lit "'generator' object is not callable"))
      end
  end.

(** [lambda tup: tup[1][0]]. *)
Definition first_alias (tup : lexer_info) : Result str :=
  match lexer_aliases tup with
  | alias :: _ => Ok alias
  | [] => Raise (IndexError (lit "tuple index out of range"))
  end.

Definition optional_attribs : list str :=
  [lit "language"; lit "no-highlight"; lit "source-file-name";
   lit "prevent-select"; lit "highlight-lines"; lit "highlight-lines-color"].

Definition unknown_language_message (language : str) (allowed : list str)
  : str :=
  lit "Unknown language: " ++ [DQUOTE] ++ language ++ [DQUOTE]
  ++ lit ". Must be one of " ++ join (lit ",") allowed.

Definition existing_code_message : str :=
  lit "Existing code cannot be added inside html element when "
  ++ [DQUOTE] ++ lit "source-file-name" ++ [DQUOTE]
  ++ lit " attribute is used.".

Definition could_not_parse_message : str :=
  lit "Could not parse highlight-lines attribute; check your syntax".

Section Prepare.

(** The collaborators of [prepare]: the attribute helpers of the
    [prairielearn] library and the lexer registry of pygments.
    [get_lexer_by_name] gives [None] where pygments raises
    [ClassNotFound]. *)
Variable check_attribs : Element -> list str -> list str -> Result unit.
Variable get_string_attrib : Element -> str -> option str -> option str.
Variable LexerClass : Type.
Variable get_lexer_by_name : str -> option LexerClass.
Variable get_all_lexers : list lexer_info.

(** The check of the [language] attribute. *)
Definition check_language (language : option str) : Result unit :=
  match language with
  | Some language =>
      match get_lexer_by_name language with
      | Some _ => Ok tt
      | None =>
          allowed_languages <-
            py_map (PyGenerator get_all_lexers) (PyFunction first_alias);;
          allowed <-
            map_items (map_func allowed_languages)
              (map_iter allowed_languages);;
          Raise (Exception (unknown_language_message language allowed))
      end
  | None => Ok tt
  end.

(** The check of [source-file-name] against the element's text. *)
Definition check_source_file_name (source_file_name : option str)
    (element : Element) : Result unit :=
  match source_file_name with
  | Some _ =>
      match text element with
      | Some element_text =>
          if negb (isspace element_text)
          then Raise (Exception existing_code_message)
          else Ok tt
      | None => Ok tt
      end
  | None => Ok tt
  end.

(** The check of the [highlight-lines] attribute. *)
Definition check_highlight_lines (highlight_lines : option str)
  : Result unit :=
  match highlight_lines with
  | Some highlight_lines =>
      match parse_highlight_lines highlight_lines with
      | None => Raise (Exception could_not_parse_message)
      | Some _ => Ok tt
      end
  | None => Ok tt
  end.

(** [prepare], from the parsed element on. *)
Definition prepare (element : Element) : Result unit :=
  let required_attribs := [] in
  check_attribs element required_attribs optional_attribs;;;
  let language :=
    get_string_attrib element (lit "language") LANGUAGE_DEFAULT in
  check_language language;;;
  let source_file_name :=
    get_string_attrib element (lit "source-file-name")
      SOURCE_FILE_NAME_DEFAULT in
  check_source_file_name source_file_name element;;;
  let highlight_lines :=
    get_string_attrib element (lit "highlight-lines")
      HIGHLIGHT_LINES_DEFAULT in
  check_highlight_lines highlight_lines.

End Prepare.

(** ** [render]: the end of the file-sourced branch *)

(** [code[:-k]]: all but the last [k] characters. *)
Definition slice_to_minus (k : nat) (code : str) : str :=
  take (length code - k) code.

(** The two [if]s under "Chop off ending newlines". *)
Definition chop_ending_newlines (code : str) : str :=
  let code :=
    if decide (slice_to_minus 2 code = [CR; LF])
    then slice_to_minus 2 code else code in
  let code :=
    if decide (slice_to_minus 1 code = [LF])
    then slice_to_minus 1 code else code in
  code.

(** ** [render]: the inline branch *)

(** [code[i] == c], for an index within the string. *)
Definition char_at (code : str) (i : nat) (c : ascii) : bool :=
  bool_decide (code !! i = Some c).

(** The [if]/[elif] that strips a single leading newline from the inner
    HTML of the element. *)
Definition strip_leading_newline (code : str) : str :=
  if (1 <? length code)%nat && char_at code 0 CR && char_at code 1 LF
  then drop 2 code
  else if (0 <? length code)%nat
          && (char_at code 0 LF || char_at code 0 CR)
  then drop 1 code
  else code.

(** ** [render]: where the code comes from *)

(** [s.replace(old, new)] for a one-character [old]. *)
Definition replace_char (old : ascii) (new : str) (s : str) : str :=
  flat_map (λ c, if decide (c = old) then new else [c]) s.

(** [html.escape(s)], with quotes. *)
Definition escape (s : str) : str :=
  let s := replace_char "&"%char (lit "&amp;") s in
  let s := replace_char "<"%char (lit "&lt;") s in
  let s := replace_char ">"%char (lit "&gt;") s in
  let s := replace_char DQUOTE (lit "&quot;") s in
  let s := replace_char "'"%char (lit "&#x27;") s in
  s.

Definition unknown_file_message (file_path : str) : str :=
  lit "Unknown file path: " ++ [DQUOTE] ++ file_path ++ [DQUOTE] ++ lit ".".

Section RenderSource.

(** The file system and the element helper [render] uses: [os.path.join],
    [os.path.exists], the lines [readlines] gives for a path (or the
    exception of [open]), and [pl.inner_html]. *)
Variable path_join : str -> str -> str.
Variable path_exists : str -> bool.
Variable readlines : str -> Result (list str).
Variable inner_html : Element -> str.

(** The first [if]/[else] of [render]: the code before it is handed to the
    highlighter, from the file when [source-file-name] is given and from
    the element otherwise. *)
Definition render_code (source_file_name : option str) (question_path : str)
    (element : Element) : Result str :=
  match source_file_name with
  | Some source_file_name =>
      let base_path := question_path in
      let file_path := path_join base_path source_file_name in
      if negb (path_exists file_path)
      then Raise (Exception (unknown_file_message file_path))
      else
        lines <- readlines file_path;;
        let code := fold_left (λ code line, code ++ line) lines [] in
        let code := chop_ending_newlines code in
        Ok (escape code)
  | None => Ok (strip_leading_newline (inner_html element))
  end.

End RenderSource.

(** ** [render]: the lexer and the formatter *)

(** The lexer [render] picks: the one pygments has under the name, or the
    pass-through lexer. *)
Inductive lexer_choice (LexerClass : Type) : Type :=
| NamedLexer (lexer : LexerClass)
| PassThrough (lexer : NoHighlightingLexer).

Arguments NamedLexer {LexerClass} lexer.
Arguments PassThrough {LexerClass} lexer.

(** [NoHighlightingLexer()]: [compress] is [options.get('compress', '')]. *)
Definition new_NoHighlightingLexer : NoHighlightingLexer :=
  {| compress := [] |}.

Section RenderLexer.

Variable LexerClass : Type.
Variable get_lexer_by_name : str -> option LexerClass.

(** [specify_language] and the [if]/[else] on it; [None] where
    [get_lexer_by_name] raises [ClassNotFound]. *)
Definition choose_lexer (language : option str) (no_highlight : bool)
  : option (lexer_choice LexerClass) :=
  match language with
  | Some language =>
      let specify_language := negb no_highlight in
      if specify_language
      then match get_lexer_by_name language with
           | Some lexer => Some (NamedLexer lexer)
           | None => None
           end
      else Some (PassThrough new_NoHighlightingLexer)
  | None => Some (PassThrough new_NoHighlightingLexer)
  end.

End RenderLexer.

(** The two options [render] adds to [formatter_opts] when
    [highlight-lines] is given; the value of [hl_lines] is what
    [parse_highlight_lines] returned, [None] included. *)
Record formatter_opts : Type := {
  opt_hl_lines : option (option (list Z));
  opt_hl_color : option str
}.

Definition render_formatter_opts (highlight_lines : option str)
    (highlight_lines_color : str) : formatter_opts :=
  match highlight_lines with
  | Some highlight_lines =>
      {| opt_hl_lines := Some (parse_highlight_lines highlight_lines);
         opt_hl_color := Some highlight_lines_color |}
  | None => {| opt_hl_lines := None; opt_hl_color := None |}
  end.

(** The formatter [render] builds from the options: [hl_color] is
    [options.get('hl_color', HIGHLIGHT_LINES_COLOR_DEFAULT)]; the base
    class makes [hl_lines] the set of the integers of the list, the empty
    set when the option is absent, and refuses a value that is not a
    list ([None] here). *)
Definition new_HighlightingHtmlFormatter (options : formatter_opts)
  : option HighlightingHtmlFormatter :=
  let hl_color :=
    default HIGHLIGHT_LINES_COLOR_DEFAULT (opt_hl_color options) in
  match opt_hl_lines options with
  | None => Some {| hl_lines := ∅; hl_color := hl_color |}
  | Some (Some lines) =>
      Some {| hl_lines := list_to_set lines; hl_color := hl_color |}
  | Some None => None
  end.

(** ** Vocabulary of the properties *)

(** What the stream holds for the source line at index [i] (from 0): the
    line, inside a highlight wrapper when line [i + 1] is highlighted. *)
Definition line_out (self : HighlightingHtmlFormatter) (i : Z)
    (value : str) : Z * str :=
  (1, if decide (i + 1 ∈ hl_lines self)
      then highlighted_line (hl_color self) value else value).

(** What one component of the specification adds to [lines]: one turn of
    the loop of [parse_highlight_lines], [None] where it returns [None]. *)
Definition component_lines (component : str) : option (list Z) :=
  let component := strip component in
  match py_int component with
  | Some line => Some [line]
  | None =>
      match split HYPHEN component with
      | [n0; n1] =>
          match py_int n0, py_int n1 with
          | Some start, Some end_ => Some (py_range start (end_ + 1))
          | _, _ => None
          end
      | _ => None
      end
  end.

(** The grammar of the specification: a term is an integer, or two
    integers joined by one hyphen.  An integer is a non-empty string of
    decimal digits.  Whitespace may surround a term, and may stand between
    an integer and the hyphen. *)
Inductive term : Type :=
| Single (lead number trail : str)
| Range (lead first gap1 gap2 last trail : str).

Definition blank (ws : str) : bool := forallb char_isspace ws.
Definition int_blank (ws : str) : bool := forallb int_isspace ws.

Definition is_number (digits : str) : bool :=
  match digits with
  | [] => false
  | _ => forallb is_digit digits
  end.

Definition well_formed (t : term) : bool :=
  match t with
  | Single lead number trail => blank lead && is_number number && blank trail
  | Range lead first gap1 gap2 last trail =>
      blank lead && is_number first && int_blank gap1
      && int_blank gap2 && is_number last && blank trail
  end.

Definition term_text (t : term) : str :=
  match t with
  | Single lead number trail => lead ++ number ++ trail
  | Range lead first gap1 gap2 last trail =>
      lead ++ first ++ gap1 ++ [HYPHEN] ++ gap2 ++ last ++ trail
  end.

(** The text of a specification: its terms, separated by commas. *)
Definition spec_text (terms : list term) : str :=
  join [COMMA] (map term_text terms).

(** The integer a string of digits denotes. *)
Definition number_value (digits : str) : Z :=
  fold_left (λ acc c, 10 * acc + digit_value c) digits 0.

(** [z] is one of the lines a term denotes: the integer itself, or an
    integer of the inclusive range. *)
Definition term_denotes (t : term) (z : Z) : Prop :=
  match t with
  | Single _ number _ => z = number_value number
  | Range _ first _ _ last _ =>
      number_value first ≤ z ≤ number_value last
  end.

(** The lines of a term, in increasing order. *)
Definition term_lines (t : term) : list Z :=
  match t with
  | Single _ number _ => [number_value number]
  | Range _ first _ _ last _ =>
      seqZ (number_value first) (number_value last - number_value first + 1)
  end.

(** Where the digit loop of [int()] stops: at the end, or at a character
    that is neither a digit nor an underscore. *)
Definition stops_scan (rest : str) : Prop :=
  match rest with
  | [] => True
  | c :: _ => is_digit c = false ∧ c ≠ UNDERSCORE
  end.

(** A component as [int()] and [split] see it. *)
Definition bare_integer (component : str) : Prop :=
  is_Some (py_int (strip component)).

Definition integer_pair (component : str) : Prop :=
  ∃ n0 n1, split HYPHEN (strip component) = [n0; n1]
           ∧ is_Some (py_int n0) ∧ is_Some (py_int n1).

(** [z] is one of the lines a component stands for: its value as an
    integer, or an integer of the inclusive range of its pair. *)
Definition component_denotes (component : str) (z : Z) : Prop :=
  py_int (strip component) = Some z
  ∨ ∃ n0 n1 a b, split HYPHEN (strip component) = [n0; n1]
                 ∧ py_int n0 = Some a ∧ py_int n1 = Some b ∧ a ≤ z ≤ b.

(** The characters an integer, or a pair of integers, is written with. *)
Definition numeric_char (c : ascii) : bool :=
  is_digit c || int_isspace c
  || bool_decide (c = PLUS) || bool_decide (c = HYPHEN)
  || bool_decide (c = UNDERSCORE).


(** Collaborators for the examples: a [check_attribs] that accepts, a
    [get_string_attrib] that looks the name up in [attrib], and a registry
    that knows [python] only. *)
Definition accept_attribs (element : Element) (required optional : list str)
  : Result unit := Ok tt.

Definition lookup_string_attrib (element : Element) (name : str)
    (default : option str) : option str :=
  match attrib element !! name with
  | Some value => Some value
  | None => default
  end.

Definition python_only (name : str) : option unit :=
  if decide (name = lit "python") then Some tt else None.

Definition python_lexers : list lexer_info :=
  [{| lexer_name := lit "Python";
      lexer_aliases := [lit "python"; lit "py"];
      lexer_filenames := [lit "*.py"];
      lexer_mimetypes := [lit "text/x-python"] |}].

Definition sample_prepare : Element → Result unit :=
  prepare accept_attribs lookup_string_attrib unit python_only python_lexers.

(** Elements for the examples. *)
Definition element_with_file_and_code : Element :=
  {| attrib := {[ lit "source-file-name" := lit "code.py" ]};
     text := Some (lit "x = 1") |}.

Definition element_with_unknown_language : Element :=
  {| attrib := {[ lit "language" := lit "nosuchlang" ]}; text := None |}.

(** The markup characters [escape] replaces, the ampersand apart. *)
Definition markup_char (c : ascii) : bool :=
  bool_decide (c = "<"%char) || bool_decide (c = ">"%char)
  || bool_decide (c = DQUOTE) || bool_decide (c = "'"%char).

(** [component] with whitespace put around it. *)
Definition padded (component' component : str) : Prop :=
  ∃ lead trail, blank lead = true ∧ blank trail = true
                ∧ component' = lead ++ component ++ trail.

Definition element_with_language_and_lines : Element :=
  {| attrib := {[ lit "language" := lit "python";
                  lit "highlight-lines" := lit "1-3,5" ]};
     text := Some (lit "x = 1") |}.

(** A file system for the examples: one file, [q/code.html], of two
    lines. *)
Definition sample_path_join (base name : str) : str :=
  base ++ lit "/" ++ name.

Definition sample_path_exists (path : str) : bool :=
  bool_decide (path = lit "q/code.html").

Definition sample_readlines (path : str) : Result (list str) :=
  Ok [lit "<b>x</b>" ++ [LF]; lit "a & b" ++ [LF]].

Definition sample_inner_html (element : Element) : str :=
  default [] (text element).

(** * Properties *)

Example py_int_examples :
  py_int (lit " +12 ") = Some 12
  ∧ py_int (lit "-7") = Some (-7)
  ∧ py_int (lit "1_000") = Some 1000
  ∧ py_int (lit "1__0") = None
  ∧ py_int (lit "_1") = None
  ∧ py_int (lit "1_") = None
  ∧ py_int (lit "+ 1") = None
  ∧ py_int (lit "1 2") = None
  ∧ py_int (lit "") = None
  ∧ py_int (lit "1" ++ ["028"%char]) = None
  ∧ py_int (strip (lit "1" ++ ["028"%char])) = Some 1.
Proof. by repeat split. Qed.

Example split_examples :
  split COMMA (lit "a,,b") = [lit "a"; []; lit "b"]
  ∧ split COMMA [] = [[]]
  ∧ split HYPHEN (lit "-1-3") = [[]; lit "1"; lit "3"]
  ∧ strip (lit "  1 - 3 ") = lit "1 - 3".
Proof. by repeat split. Qed.

Example parse_rejected :
  parse_highlight_lines (lit "1,,2") = None
  ∧ parse_highlight_lines (lit "1-2-3") = None
  ∧ parse_highlight_lines (lit "-1-3") = None
  ∧ parse_highlight_lines (lit "1 2") = None
  ∧ parse_highlight_lines (lit "1-") = None
  ∧ parse_highlight_lines (lit "a") = None.
Proof. by repeat split. Qed.

Example parse_single : parse_highlight_lines (lit "5") = Some [5].
Proof. reflexivity. Qed.

Example parse_range : parse_highlight_lines (lit "1-3") = Some [1; 2; 3].
Proof. reflexivity. Qed.

Example parse_mixed :
  parse_highlight_lines (lit "1-3,5,7-8") = Some [1; 2; 3; 5; 7; 8].
Proof. reflexivity. Qed.

Example parse_spaces :
  parse_highlight_lines (lit " 1 - 3 , 5 ") = Some [1; 2; 3; 5].
Proof. reflexivity. Qed.

Example parse_empty : parse_highlight_lines [] = None.
Proof. reflexivity. Qed.

Example parse_descending : parse_highlight_lines (lit "5-3,7") = Some [7].
Proof. reflexivity. Qed.

Example parse_negative : parse_highlight_lines (lit "-5") = Some [-5].
Proof. reflexivity. Qed.

Example parse_underscore : parse_highlight_lines (lit "1_0") = Some [10].
Proof. reflexivity. Qed.

(** ** The pass-through lexer *)

(** C4: for every input the pass-through lexer gives exactly one token, of
    type Text, whose text is the whole input; so the texts of its tokens,
    concatenated in order, are the input. *)
Theorem no_highlighting_lexer_single_text_token
    (lexer : NoHighlightingLexer) (text : str) :
  get_tokens_unprocessed lexer text = [(0, Token_Text, text)]
  ∧ (∃ tok, get_tokens_unprocessed lexer text = [tok]
            ∧ token_type tok = Token_Text ∧ token_text tok = text)
  ∧ tokens_text (get_tokens_unprocessed lexer text) = text.
Proof.
  split; [reflexivity|]. split.
  - exists (0, Token_Text, text). repeat split.
  - unfold tokens_text. simpl. apply app_nil_r.
Qed.

(** ** Line highlighting *)

Lemma highlight_lines_from_app self i pre post :
  highlight_lines_from self i (pre ++ post) =
  highlight_lines_from self i pre
  ++ highlight_lines_from self (i + Z.of_nat (length pre)) post.
Proof.
  revert i. induction pre as [|[t value] pre IH]; intros i; simpl.
  - by rewrite Z.add_0_r.
  - rewrite IH. rewrite <- !app_assoc.
    by replace (i + 1 + Z.of_nat (length pre))
      with (i + Z.pos (Pos.of_succ_nat (length pre))) by lia.
Qed.

Lemma highlight_lines_from_source_lines self i (lines : list str) :
  highlight_lines_from self i (map (pair 1) lines) =
  imap (λ k, line_out self (i + Z.of_nat k)) lines.
Proof.
  revert i. induction lines as [|value lines IH]; intros i; [done|].
  simpl. rewrite IH. unfold line_out at 2. rewrite Z.add_0_r.
  destruct (decide (1 ≠ 1)) as [Hne|_]; [done|].
  simpl.
  assert (Htail : imap (λ k, line_out self (i + 1 + Z.of_nat k)) lines
                  = imap ((λ k, line_out self (i + Z.of_nat k)) ∘ S) lines).
  { apply imap_ext. intros k v _. simpl. f_equal. lia. }
  rewrite Htail. by destruct (decide (i + 1 ∈ hl_lines self)).
Qed.

(** C1: on the stream of source lines (each tagged 1, as the formatter
    hands them over) [_highlight_lines] yields one item per line, in the
    same order: the line inside one highlight wrapper with the configured
    colour when its number is highlighted, and the line itself otherwise.
    For three lines and [{2}] only the second line is wrapped, and what is
    written for [a], [b], [c] with colour [#ff0000] has one wrapper. *)
Theorem highlight_lines_wraps_highlighted_lines
    (self : HighlightingHtmlFormatter) (lines : list str) :
  let out := _highlight_lines self (map (pair 1) lines) in
  out = imap (λ k, line_out self (Z.of_nat k)) lines
  ∧ length out = length lines
  ∧ (∀ k : nat, out !! k = line_out self (Z.of_nat k) <$> lines !! k)
  ∧ (∀ color a b c,
       _highlight_lines {| hl_lines := {[2]}; hl_color := color |}
         [(1, a); (1, b); (1, c)]
       = [(1, a); (1, highlighted_line color b); (1, c)])
  ∧ (let out3 :=
       _highlight_lines {| hl_lines := {[2]}; hl_color := lit "#ff0000" |}
         [(1, lit "a" ++ [LF]); (1, lit "b" ++ [LF]); (1, lit "c" ++ [LF])] in
     written out3 =
       (lit "a" ++ [LF])
       ++ highlighted_line (lit "#ff0000") (lit "b" ++ [LF])
       ++ (lit "c" ++ [LF])
     ∧ count_occurrences wrapper_open (written out3) = 1%nat).
Proof.
  assert (Hout : _highlight_lines self (map (pair 1) lines)
                 = imap (λ k, line_out self (Z.of_nat k)) lines).
  { unfold _highlight_lines. rewrite highlight_lines_from_source_lines.
    apply imap_ext. intros k v _. simpl. f_equal. }
  cbv zeta. rewrite Hout. split; [done|]. split; [apply length_imap|].
  split; [intros k; by rewrite list_lookup_imap|].
  split; [|by vm_compute].
  intros color a b c. unfold _highlight_lines. simpl.
  destruct (decide (1 ≠ 1)) as [Hne|_]; [done|]. simpl.
  rewrite !decide_False by set_solver.
  rewrite decide_True by set_solver. done.
Qed.

Lemma starts_with_app needle hay rest :
  starts_with needle hay = true → starts_with needle (hay ++ rest) = true.
Proof.
  revert hay. induction needle as [|c needle IH]; intros [|d hay]; simpl;
    try done.
  destruct (decide (c = d)); [apply IH|done].
Qed.

Lemma starts_with_prefix needle rest : starts_with needle (needle ++ rest) = true.
Proof.
  induction needle as [|c needle IH]; simpl; [done|].
  by rewrite decide_True.
Qed.

Lemma count_occurrences_app needle hay1 hay2 :
  (count_occurrences needle hay1 + count_occurrences needle hay2
   ≤ count_occurrences needle (hay1 ++ hay2))%nat.
Proof.
  induction hay1 as [|c hay1 IH]; simpl; [lia|].
  destruct (starts_with needle (c :: hay1)) eqn:Hs.
  - change (c :: hay1 ++ hay2) with ((c :: hay1) ++ hay2).
    rewrite (starts_with_app _ _ hay2 Hs). lia.
  - destruct (starts_with needle (c :: hay1 ++ hay2)); lia.
Qed.

Lemma count_occurrences_inside needle before after :
  needle ≠ [] →
  (1 ≤ count_occurrences needle (before ++ needle ++ after))%nat.
Proof.
  intros Hne.
  pose proof (count_occurrences_app needle before (needle ++ after)) as Happ.
  destruct needle as [|c needle]; [done|].
  assert (1 ≤ count_occurrences (c :: needle) ((c :: needle) ++ after))%nat.
  { change ((c :: needle) ++ after) with (c :: (needle ++ after)).
    cbn [count_occurrences].
    change (c :: needle ++ after) with ((c :: needle) ++ after).
    rewrite starts_with_prefix. lia. }
  lia.
Qed.

Lemma written_app source1 source2 :
  written (source1 ++ source2) = written source1 ++ written source2.
Proof. unfold written. by rewrite map_app, concat_app. Qed.

(** C9: an item [(t, value)] with [t] other than 1 is yielded twice: first
    as it is, then with tag 1, inside the highlight wrapper when its
    position (from 1) is in [hl_lines]; so what is written holds its text,
    when that is not empty, at least twice. *)
Theorem highlight_lines_repeats_other_items
    (self : HighlightingHtmlFormatter) (pre post : list (Z * str))
    (t : Z) (value : str) :
  t ≠ 1 →
  let i := Z.of_nat (length pre) in
  let out := _highlight_lines self (pre ++ (t, value) :: post) in
  out = _highlight_lines self pre
        ++ (t, value) :: line_out self i value
           :: highlight_lines_from self (i + 1) post
  ∧ (value ≠ [] → (2 ≤ count_occurrences value (written out))%nat).
Proof.
  intros Ht i out.
  assert (Hout : out = _highlight_lines self pre
        ++ (t, value) :: line_out self i value
           :: highlight_lines_from self (i + 1) post).
  { unfold out, _highlight_lines. rewrite highlight_lines_from_app.
    f_equal. simpl. rewrite decide_True by done. simpl. fold i.
    rewrite Z.add_0_l.
    unfold line_out. by destruct (decide (i + 1 ∈ hl_lines self)). }
  split; [done|]. intros Hvalue. rewrite Hout, written_app.
  pose proof (count_occurrences_app value
    (written (_highlight_lines self pre))
    (written ((t, value) :: line_out self i value
              :: highlight_lines_from self (i + 1) post))) as H1.
  change (written ((t, value) :: line_out self i value
              :: highlight_lines_from self (i + 1) post))
    with (value ++ written (line_out self i value
              :: highlight_lines_from self (i + 1) post)) in *.
  pose proof (count_occurrences_app value value
    (written (line_out self i value
              :: highlight_lines_from self (i + 1) post))) as H2.
  pose proof (count_occurrences_inside value [] [] Hvalue) as H3.
  simpl in H3. rewrite app_nil_r in H3.
  assert (1 ≤ count_occurrences value
    (written (line_out self i value
              :: highlight_lines_from self (i + 1) post)))%nat as H4.
  { unfold line_out, written. cbn [map snd concat].
    destruct (decide (i + 1 ∈ hl_lines self)).
    - unfold highlighted_line. rewrite <- !app_assoc.
      rewrite !(app_assoc _ _ (value ++ _)).
      apply count_occurrences_inside, Hvalue.
    - apply (count_occurrences_inside value []), Hvalue. }
  lia.
Qed.

Lemma highlight_lines_repeats_other_items_witness :
  _highlight_lines {| hl_lines := {[1]}; hl_color := lit "#ff0000" |}
    [(0, lit "x")]
  = [(0, lit "x"); (1, highlighted_line (lit "#ff0000") (lit "x"))]
  ∧ (2 ≤ count_occurrences (lit "x")
           (written
              (_highlight_lines
                 {| hl_lines := {[1%Z]}; hl_color := lit "#ff0000" |}
                 [(0%Z, lit "x")])))%nat.
Proof.
  pose proof (highlight_lines_repeats_other_items
                {| hl_lines := {[1]}; hl_color := lit "#ff0000" |}
                [] [] 0 (lit "x") ltac:(lia)) as [Hout Hcount].
  split; [|apply Hcount; discriminate].
  etransitivity; [exact Hout|]. reflexivity.
Defined.

(** ** Trailing newlines in [render] *)

Lemma slice_to_minus_length k code :
  length (slice_to_minus k code) = (length code - k)%nat.
Proof. unfold slice_to_minus. rewrite length_take. lia. Qed.

Lemma chop_ending_newlines_long code :
  (5 ≤ length code)%nat → chop_ending_newlines code = code.
Proof.
  intros Hlen. unfold chop_ending_newlines.
  destruct (decide (slice_to_minus 2 code = [CR; LF])) as [Heq|_].
  { apply (f_equal length) in Heq. rewrite slice_to_minus_length in Heq.
    simpl in Heq. lia. }
  destruct (decide (slice_to_minus 1 code = [LF])) as [Heq|_]; [|done].
  apply (f_equal length) in Heq. rewrite slice_to_minus_length in Heq.
  simpl in Heq. lia.
Qed.

Ltac chop_cases :=
  unfold chop_ending_newlines, slice_to_minus; simpl;
  repeat match goal with
    | |- context [decide (?x = ?y)] =>
        destruct (decide (x = y)) as [?H|?H]; try discriminate; simpl
    end.

(** C10: the two comparisons under "Chop off ending newlines" leave the
    content as it is, unless it is a carriage return and a line feed
    followed by two characters (it becomes the carriage return and line
    feed) or a line feed followed by one character (it becomes the line
    feed).  Content of five characters or more that ends in a line feed,
    such as [x = 1] and a line feed, keeps it. *)
Theorem chop_ending_newlines_keeps_content (code : str) :
  (chop_ending_newlines code = code
   ↔ ¬ ((∃ c1 c2, code = [CR; LF; c1; c2]) ∨ (∃ c, code = [LF; c])))
  ∧ (∀ c1 c2, chop_ending_newlines [CR; LF; c1; c2] = [CR; LF])
  ∧ (∀ c, chop_ending_newlines [LF; c] = [LF])
  ∧ (∀ body, (4 ≤ length body)%nat →
       chop_ending_newlines (body ++ [LF]) = body ++ [LF])
  ∧ chop_ending_newlines (lit "x = 1" ++ [LF]) = lit "x = 1" ++ [LF].
Proof.
  split; [|split; [|split; [|split]]].
  - destruct code as [|a [|b [|c [|d [|e rest]]]]].
    + split; [|done]. intros _ [(c1 & c2 & H)|(c & H)]; discriminate.
    + split; [|chop_cases; done].
      intros _ [(c1 & c2 & H)|(c & H)]; discriminate.
    + chop_cases.
      * simplify_eq. split; [discriminate|].
        intros Hn. exfalso. apply Hn. right. by exists b.
      * split; [|done]. intros _ [(c1 & c2 & H')|(c' & H')]; [discriminate|].
        simplify_eq.
    + split; [|chop_cases; done].
      intros _ [(c1 & c2 & H)|(c' & H)]; discriminate.
    + chop_cases.
      * simplify_eq.
      * simplify_eq. split; [discriminate|].
        intros Hn. exfalso. apply Hn. left. by exists c, d.
      * split; [|done].
        intros _ [(c1 & c2 & H')|(c' & H')]; [|discriminate].
        congruence.
    + rewrite chop_ending_newlines_long by (simpl; lia).
      split; [|done]. intros _ [(c1 & c2 & H)|(c' & H)]; discriminate.
  - intros c1 c2. reflexivity.
  - intros c. reflexivity.
  - intros body Hlen. apply chop_ending_newlines_long.
    rewrite length_app. simpl. lia.
  - reflexivity.
Qed.

(** ** Characters *)

Ltac by_cases_on_char c :=
  destruct c as [[] [] [] [] [] [] [] []]; vm_compute; intuition congruence.

Lemma digit_not_space c : is_digit c = true → char_isspace c = false.
Proof. by_cases_on_char c. Qed.

Lemma digit_not_int_space c : is_digit c = true → int_isspace c = false.
Proof. by_cases_on_char c. Qed.

Lemma digit_not_underscore c : is_digit c = true → c ≠ UNDERSCORE.
Proof. by_cases_on_char c. Qed.

Lemma digit_not_hyphen c : is_digit c = true → c ≠ HYPHEN.
Proof. by_cases_on_char c. Qed.

Lemma digit_not_plus c : is_digit c = true → c ≠ PLUS.
Proof. by_cases_on_char c. Qed.

Lemma digit_not_comma c : is_digit c = true → c ≠ COMMA.
Proof. by_cases_on_char c. Qed.

Lemma int_space_is_space c : int_isspace c = true → char_isspace c = true.
Proof. by_cases_on_char c. Qed.

Lemma space_not_digit c : char_isspace c = true → is_digit c = false.
Proof. by_cases_on_char c. Qed.

Lemma space_not_underscore c : char_isspace c = true → c ≠ UNDERSCORE.
Proof. by_cases_on_char c. Qed.

Lemma space_not_hyphen c : char_isspace c = true → c ≠ HYPHEN.
Proof. by_cases_on_char c. Qed.

Lemma space_not_plus c : char_isspace c = true → c ≠ PLUS.
Proof. by_cases_on_char c. Qed.

Lemma space_not_comma c : char_isspace c = true → c ≠ COMMA.
Proof. by_cases_on_char c. Qed.

Lemma digit_value_range c : is_digit c = true → 0 ≤ digit_value c ≤ 9.
Proof.
  unfold is_digit, digit_value. intros H.
  apply andb_true_iff in H as [H1 H2]. lia.
Qed.

(** ** [strip] *)

Lemma lstrip_blank ws s : blank ws = true → lstrip (ws ++ s) = lstrip s.
Proof.
  unfold blank. induction ws as [|c ws IH]; simpl; [done|].
  intros H. apply andb_true_iff in H as [Hc Hws]. rewrite Hc. by apply IH.
Qed.

Lemma blank_rev ws : blank (rev ws) = blank ws.
Proof.
  unfold blank. induction ws as [|c ws IH]; simpl; [done|].
  rewrite forallb_app, IH. simpl. rewrite andb_true_r. apply andb_comm.
Qed.

Lemma rstrip_blank ws s : blank ws = true → rstrip (s ++ ws) = rstrip s.
Proof.
  intros H. unfold rstrip. rewrite rev_app_distr.
  rewrite lstrip_blank; [done|]. by rewrite blank_rev.
Qed.

Lemma rstrip_last s c : char_isspace c = false → rstrip (s ++ [c]) = s ++ [c].
Proof.
  intros H. unfold rstrip. rewrite rev_app_distr. simpl. rewrite H. simpl.
  by rewrite rev_involutive.
Qed.

(** Stripping a padded string whose first and last characters are not
    whitespace gives the string. *)
Lemma strip_padded lead trail first middle last :
  blank lead = true → blank trail = true →
  char_isspace first = false → char_isspace last = false →
  strip (lead ++ (first :: middle ++ [last]) ++ trail)
  = first :: middle ++ [last].
Proof.
  intros Hlead Htrail Hfirst Hlast. unfold strip.
  rewrite lstrip_blank by done. simpl. rewrite Hfirst.
  change (first :: (middle ++ [last]) ++ trail)
    with ((first :: middle ++ [last]) ++ trail).
  rewrite rstrip_blank by done.
  change (first :: middle ++ [last]) with ((first :: middle) ++ [last]).
  by apply rstrip_last.
Qed.

Lemma strip_padded_one lead trail c :
  blank lead = true → blank trail = true → char_isspace c = false →
  strip (lead ++ [c] ++ trail) = [c].
Proof.
  intros Hlead Htrail Hc. unfold strip.
  rewrite lstrip_blank by done. simpl. rewrite Hc.
  change (c :: trail) with ([c] ++ trail).
  rewrite rstrip_blank by done. by apply (rstrip_last []).
Qed.

(** ** [split] and [join] *)

Lemma split_not_nil sep s : split sep s ≠ [].
Proof.
  destruct s as [|c s]; simpl; [done|].
  destruct (decide (c = sep)); [done|]. by destruct (split sep s).
Qed.

Lemma split_without_sep sep s : Forall (λ c, c ≠ sep) s → split sep s = [s].
Proof.
  induction 1 as [|c s Hc Hs IH]; simpl; [done|].
  rewrite decide_False by done. by rewrite IH.
Qed.

Lemma split_app_sep sep s1 s2 :
  split sep (s1 ++ sep :: s2) = split sep s1 ++ split sep s2.
Proof.
  induction s1 as [|c s1 IH]; simpl.
  - by rewrite decide_True.
  - destruct (decide (c = sep)); [by rewrite IH|].
    rewrite IH. pose proof (split_not_nil sep s1).
    by destruct (split sep s1).
Qed.

Lemma join_cons sep p ps :
  ps ≠ [] → join sep (p :: ps) = p ++ sep ++ join sep ps.
Proof. by destruct ps. Qed.

Lemma join_split sep s : join [sep] (split sep s) = s.
Proof.
  induction s as [|c s IH]; [done|].
  pose proof (split_not_nil sep s) as Hne. cbn [split].
  destruct (decide (c = sep)) as [->|Hc].
  - rewrite join_cons by done. by rewrite IH.
  - destruct (split sep s) as [|piece pieces] eqn:Heq; [done|].
    rewrite <- IH. by destruct pieces.
Qed.

Lemma split_join sep pieces :
  pieces ≠ [] → Forall (Forall (λ c, c ≠ sep)) pieces →
  split sep (join [sep] pieces) = pieces.
Proof.
  intros Hne Hall. induction Hall as [|p pieces Hp Hps IH]; [done|].
  destruct pieces as [|q pieces].
  - simpl. by apply split_without_sep.
  - change (join [sep] (p :: q :: pieces))
      with (p ++ sep :: join [sep] (q :: pieces)).
    rewrite split_app_sep, IH by done. by rewrite split_without_sep.
Qed.

(** ** [int()] *)

Lemma skip_int_space_blank ws s :
  int_blank ws = true → skip_int_space (ws ++ s) = skip_int_space s.
Proof.
  unfold int_blank. induction ws as [|c ws IH]; simpl; [done|].
  intros H. apply andb_true_iff in H as [Hc Hws]. rewrite Hc. by apply IH.
Qed.

Lemma skip_int_space_nil_blank s : skip_int_space s = [] ↔ int_blank s = true.
Proof.
  unfold int_blank. induction s as [|c s IH]; simpl; [done|].
  destruct (int_isspace c); simpl; [done|]. split; discriminate.
Qed.

Lemma skip_int_space_decompose s :
  ∃ ws, s = ws ++ skip_int_space s ∧ int_blank ws = true.
Proof.
  induction s as [|c s (ws & Hs & Hws)]; simpl; [by exists []|].
  destruct (int_isspace c) eqn:Hc.
  - exists (c :: ws). split; [simpl; congruence|].
    unfold int_blank in *. simpl. by rewrite Hc.
  - by exists [].
Qed.

Lemma skip_int_space_app s t :
  skip_int_space s ≠ [] → skip_int_space (s ++ t) = skip_int_space s ++ t.
Proof.
  induction s as [|c s IH]; simpl; [done|].
  destruct (int_isspace c); [apply IH|done].
Qed.

Lemma skip_int_space_head c s :
  int_isspace c = false → skip_int_space (c :: s) = c :: s.
Proof. simpl. by intros ->. Qed.

Lemma scan_digits_number digits rest acc :
  forallb is_digit digits = true → stops_scan rest →
  scan_digits false acc (digits ++ rest)
  = Some (fold_left (λ acc c, 10 * acc + digit_value c) digits acc, rest).
Proof.
  intros Hdigits Hrest. revert acc.
  induction digits as [|c digits IH]; intros acc; simpl.
  - destruct rest as [|c rest]; [done|]. destruct Hrest as [Hc Hu].
    simpl. rewrite Hc. by rewrite decide_False.
  - simpl in Hdigits. apply andb_true_iff in Hdigits as [Hc Hdigits].
    rewrite Hc. by apply IH.
Qed.

(** Appending a hyphen and more to a string the digit loop accepts leaves
    what it reads unchanged. *)
Lemma scan_digits_then_hyphen prev acc s n rest tail :
  scan_digits prev acc s = Some (n, rest) →
  scan_digits prev acc (s ++ HYPHEN :: tail) = Some (n, rest ++ HYPHEN :: tail).
Proof.
  revert prev acc. induction s as [|c s IH]; intros prev acc; simpl.
  - destruct prev; [done|]. by intros [= <- <-].
  - destruct (is_digit c); [apply IH|].
    destruct (decide (c = UNDERSCORE)).
    + destruct prev; [done|apply IH].
    + destruct prev; [done|]. by intros [= <- <-].
Qed.

Lemma scan_digits_decompose prev acc s n rest :
  scan_digits prev acc s = Some (n, rest) →
  ∃ body, s = body ++ rest ∧ forallb numeric_char body = true.
Proof.
  revert prev acc. induction s as [|c s IH]; intros prev acc; simpl.
  - destruct prev; [done|]. intros [= <- <-]. by exists [].
  - destruct (is_digit c) eqn:Hc.
    { intros H. apply IH in H as (body & -> & Hbody).
      exists (c :: body). split; [done|]. simpl. rewrite Hbody.
      unfold numeric_char. by rewrite Hc. }
    destruct (decide (c = UNDERSCORE)) as [->|Hu].
    + destruct prev; [done|]. intros H. apply IH in H as (body & -> & Hbody).
      exists (UNDERSCORE :: body). split; [done|]. simpl. by rewrite Hbody.
    + destruct prev; [done|]. intros [= <- <-]. by exists [].
Qed.

Lemma split_sign_app s tail :
  s ≠ [] →
  split_sign (s ++ tail) = ((split_sign s).1, (split_sign s).2 ++ tail).
Proof.
  destruct s as [|c s]; [done|]. intros _. simpl.
  destruct (decide (c = PLUS)); [done|]. by destruct (decide (c = HYPHEN)).
Qed.

Lemma split_sign_decompose s :
  ∃ sign, s = sign ++ (split_sign s).2 ∧ forallb numeric_char sign = true.
Proof.
  destruct s as [|c s]; simpl; [by exists []|].
  destruct (decide (c = PLUS)) as [->|?]; [by exists [PLUS]|].
  destruct (decide (c = HYPHEN)) as [->|?]; [by exists [HYPHEN]|].
  by exists [].
Qed.

Lemma int_blank_numeric ws :
  int_blank ws = true → forallb numeric_char ws = true.
Proof.
  unfold int_blank. induction ws as [|c ws IH]; simpl; [done|].
  intros H. apply andb_true_iff in H as [Hc Hws]. rewrite IH by done.
  unfold numeric_char. rewrite Hc. by rewrite orb_true_r.
Qed.

(** What [int()] accepts is written with numeric characters only. *)
Lemma py_int_numeric s n : py_int s = Some n → forallb numeric_char s = true.
Proof.
  unfold py_int. intros H.
  destruct (skip_int_space_decompose s) as (ws & Hs & Hws).
  destruct (split_sign_decompose (skip_int_space s)) as (sign & Hsign & Hsg).
  destruct (split_sign (skip_int_space s)) as [negative s2]. simpl in Hsign.
  destruct (scan_number s2) as [[m rest]|] eqn:Hscan; [|done].
  destruct (skip_int_space rest) eqn:Hrest; [|done].
  apply skip_int_space_nil_blank in Hrest.
  assert (∃ body, s2 = body ++ rest ∧ forallb numeric_char body = true)
    as (body & -> & Hbody).
  { unfold scan_number in Hscan. destruct s2 as [|c s2]; [done|].
    destruct (is_digit c); [|done]. by eapply scan_digits_decompose. }
  rewrite Hs, Hsign, !forallb_app, Hsg, Hbody.
  by rewrite !int_blank_numeric.
Qed.

(** A string that [int()] accepts is no longer accepted once a hyphen and
    more is appended to it. *)
Lemma py_int_then_hyphen s tail :
  is_Some (py_int s) → py_int (s ++ HYPHEN :: tail) = None.
Proof.
  intros [n H]. unfold py_int in *.
  destruct (split_sign (skip_int_space s)) as [negative s2] eqn:Hsign.
  destruct (scan_number s2) as [[m rest]|] eqn:Hscan; [|done].
  destruct (skip_int_space rest) eqn:Hrest; [|done].
  assert (skip_int_space s ≠ []) as Hne.
  { intros Hnil. rewrite Hnil in Hsign. simpl in Hsign.
    injection Hsign as <- <-. done. }
  rewrite skip_int_space_app, split_sign_app, Hsign by done. simpl.
  assert (scan_number (s2 ++ HYPHEN :: tail)
          = Some (m, rest ++ HYPHEN :: tail)) as ->.
  { unfold scan_number in *. destruct s2 as [|c s2]; [done|].
    change ((c :: s2) ++ HYPHEN :: tail) with (c :: (s2 ++ HYPHEN :: tail)).
    cbv iota beta. destruct (is_digit c) eqn:Hc; [|done].
    change (c :: (s2 ++ HYPHEN :: tail)) with ((c :: s2) ++ HYPHEN :: tail).
    by apply scan_digits_then_hyphen. }
  apply skip_int_space_nil_blank in Hrest.
  rewrite skip_int_space_blank by done. done.
Qed.

(** [int()] on a string of digits between whitespace. *)
Lemma py_int_number lead digits trail :
  int_blank lead = true → is_number digits = true → int_blank trail = true →
  py_int (lead ++ digits ++ trail) = Some (number_value digits).
Proof.
  intros Hlead Hdigits Htrail. unfold py_int.
  rewrite skip_int_space_blank by done.
  destruct digits as [|c digits]; [done|]. simpl in Hdigits.
  apply andb_true_iff in Hdigits as [Hc Hdigits].
  change ((c :: digits) ++ trail) with (c :: (digits ++ trail)).
  rewrite skip_int_space_head by by apply digit_not_int_space.
  unfold split_sign.
  rewrite decide_False by by apply digit_not_plus.
  rewrite decide_False by by apply digit_not_hyphen.
  unfold scan_number. rewrite Hc.
  change (c :: (digits ++ trail)) with ((c :: digits) ++ trail).
  rewrite scan_digits_number.
  - apply skip_int_space_nil_blank in Htrail. by rewrite Htrail.
  - simpl. by rewrite Hc.
  - destruct trail as [|d trail]; [done|]. simpl.
    unfold int_blank in Htrail. simpl in Htrail.
    apply andb_true_iff in Htrail as [Hd _].
    apply int_space_is_space in Hd.
    split; [by apply space_not_digit|by apply space_not_underscore].
Qed.

(** ** The loop of [parse_highlight_lines] *)

Lemma parse_components_cons component components lines :
  parse_components (component :: components) lines
  = match component_lines component with
    | Some added => parse_components components (lines ++ added)
    | None => None
    end.
Proof.
  unfold component_lines. cbn [parse_components].
  destruct (py_int (strip component)); [done|].
  destruct (split HYPHEN (strip component)) as [|n0 [|n1 [|? ?]]]; try done.
  destruct (py_int n0); [|done]. by destruct (py_int n1).
Qed.

(** The loop adds the lines of every component, in order, and gives
    [None] as soon as one component has none. *)
Lemma parse_components_mapM components lines :
  parse_components components lines
  = (λ added, lines ++ concat added) <$> mapM component_lines components.
Proof.
  revert lines. induction components as [|c components IH]; intros lines.
  - simpl. by rewrite app_nil_r.
  - rewrite parse_components_cons. cbn [mapM].
    destruct (component_lines c) as [added|]; [|done]. simpl.
    rewrite IH. destruct (mapM component_lines components); [|done].
    simpl. by rewrite app_assoc.
Qed.

Lemma parse_highlight_lines_mapM spec :
  parse_highlight_lines spec
  = @concat Z <$> mapM component_lines (split COMMA spec).
Proof. unfold parse_highlight_lines. by rewrite parse_components_mapM. Qed.

(** ** Well-formed specifications *)

Lemma strip_padded_body lead body trail :
  blank lead = true → blank trail = true →
  (∃ c, head body = Some c ∧ char_isspace c = false) →
  (∃ c, last body = Some c ∧ char_isspace c = false) →
  strip (lead ++ body ++ trail) = body.
Proof.
  intros Hlead Htrail (c & Hhead & Hc) (d & Hlast & Hd).
  destruct body as [|c' body]; [done|]. simpl in Hhead. simplify_eq.
  destruct body as [|d' body _] using rev_ind.
  - by apply strip_padded_one.
  - rewrite app_comm_cons, last_snoc in Hlast. simplify_eq.
    by apply strip_padded.
Qed.

Lemma is_number_head digits :
  is_number digits = true → ∃ c, head digits = Some c ∧ is_digit c = true.
Proof.
  destruct digits as [|c digits]; [done|]. simpl. intros H.
  apply andb_true_iff in H as [Hc _]. by exists c.
Qed.

Lemma is_number_digits digits :
  is_number digits = true → forallb is_digit digits = true.
Proof. by destruct digits. Qed.

Lemma is_number_last digits :
  is_number digits = true → ∃ c, last digits = Some c ∧ is_digit c = true.
Proof.
  intros H. pose proof (is_number_digits _ H) as Hall.
  destruct digits as [|d digits _] using rev_ind; [done|].
  rewrite forallb_app in Hall. apply andb_true_iff in Hall as [_ Hd].
  simpl in Hd. rewrite andb_true_r in Hd.
  exists d. by rewrite last_snoc.
Qed.

Lemma forallb_Forall_ne (P : ascii → bool) (sep : ascii) s :
  (∀ c, P c = true → c ≠ sep) → forallb P s = true →
  Forall (λ c, c ≠ sep) s.
Proof.
  intros HP. induction s as [|c s IH]; simpl; [constructor|].
  intros H. apply andb_true_iff in H as [Hc Hs]. constructor; auto.
Qed.

Lemma blank_without sep ws :
  sep = COMMA ∨ sep = HYPHEN → blank ws = true → Forall (λ c, c ≠ sep) ws.
Proof.
  intros Hsep. apply forallb_Forall_ne. intros c Hc.
  destruct Hsep as [->| ->];
    [by apply space_not_comma|by apply space_not_hyphen].
Qed.

Lemma int_blank_blank ws : int_blank ws = true → blank ws = true.
Proof.
  unfold int_blank, blank. induction ws as [|c ws IH]; simpl; [done|].
  intros H. apply andb_true_iff in H as [Hc Hws].
  by rewrite (int_space_is_space _ Hc), IH.
Qed.

Lemma number_without sep digits :
  sep = COMMA ∨ sep = HYPHEN → is_number digits = true →
  Forall (λ c, c ≠ sep) digits.
Proof.
  intros Hsep H. apply is_number_digits in H. revert H.
  apply forallb_Forall_ne. intros c Hc.
  destruct Hsep as [->| ->];
    [by apply digit_not_comma|by apply digit_not_hyphen].
Qed.

Ltac reassoc :=
  repeat (rewrite <- app_assoc || rewrite <- app_comm_cons); try done.

Ltac split_well_formed H :=
  unfold well_formed in H;
  repeat match type of H with
    | _ && _ = true => let H' := fresh "Hwf" in
                       apply andb_true_iff in H as [H H']
    end.

Lemma term_text_without_comma t :
  well_formed t = true → Forall (λ c, c ≠ COMMA) (term_text t).
Proof.
  destruct t; intros H; split_well_formed H; simpl;
    repeat first [ apply Forall_app; split
                 | apply Forall_cons; split; [done|] ];
    try (apply blank_without; [by left|]; done || by apply int_blank_blank);
    try (apply number_without; [by left|]; done).
Qed.

(** One turn of the loop on a well-formed term adds the lines the term
    denotes. *)
Lemma component_lines_well_formed t :
  well_formed t = true → component_lines (term_text t) = Some (term_lines t).
Proof.
  destruct t as [lead number trail|lead first gap1 gap2 last trail];
    intros H; split_well_formed H; unfold component_lines; simpl.
  - rewrite strip_padded_body; try done.
    + pose proof (py_int_number [] number [] eq_refl Hwf0 eq_refl) as Hint.
      simpl in Hint. rewrite app_nil_r in Hint. by rewrite Hint.
    + destruct (is_number_head _ Hwf0) as (c & ? & ?).
      exists c. split; [done|]. by apply digit_not_space.
    + destruct (is_number_last _ Hwf0) as (c & ? & ?).
      exists c. split; [done|]. by apply digit_not_space.
  - replace (lead ++ first ++ gap1 ++ HYPHEN :: gap2 ++ last ++ trail)
      with (lead ++ (first ++ gap1 ++ HYPHEN :: gap2 ++ last) ++ trail)
      by reassoc.
    pose proof (py_int_number [] first gap1 eq_refl Hwf3 Hwf2) as Hfirst.
    pose proof (py_int_number gap2 last [] Hwf1 Hwf0 eq_refl) as Hlast.
    simpl in Hfirst. rewrite app_nil_r in Hlast.
    rewrite strip_padded_body; try done.
    + replace (first ++ gap1 ++ HYPHEN :: gap2 ++ last)
        with ((first ++ gap1) ++ HYPHEN :: gap2 ++ last)
        by reassoc.
      rewrite py_int_then_hyphen by (by rewrite Hfirst).
      rewrite split_app_sep.
      rewrite !split_without_sep; simpl.
      * rewrite Hfirst, Hlast. unfold py_range. do 2 f_equal. lia.
      * apply Forall_app. split.
        -- apply blank_without; [by right|by apply int_blank_blank].
        -- apply number_without; [by right|done].
      * apply Forall_app. split.
        -- apply number_without; [by right|done].
        -- apply blank_without; [by right|by apply int_blank_blank].
    + destruct (is_number_head _ Hwf3) as (c & Hc & ?).
      exists c. split; [|by apply digit_not_space].
      destruct first; [done|]. by simpl in *.
    + destruct (is_number_last _ Hwf0) as (c & Hc & ?).
      exists c. split; [|by apply digit_not_space].
      destruct last as [|d last _] using rev_ind; [done|].
      rewrite last_snoc in Hc. simplify_eq.
      replace (first ++ gap1 ++ HYPHEN :: gap2 ++ last ++ [c])
        with ((first ++ gap1 ++ HYPHEN :: gap2 ++ last) ++ [c]) by reassoc.
      by rewrite last_snoc.
Qed.

Lemma mapM_component_lines_well_formed terms :
  forallb well_formed terms = true →
  mapM component_lines (map term_text terms) = Some (map term_lines terms).
Proof.
  induction terms as [|t terms IH]; simpl; [done|].
  intros H. apply andb_true_iff in H as [Ht Hterms].
  by rewrite component_lines_well_formed, IH.
Qed.

Lemma split_spec_text terms :
  terms ≠ [] → forallb well_formed terms = true →
  split COMMA (spec_text terms) = map term_text terms.
Proof.
  intros Hne Hwf. unfold spec_text. apply split_join.
  - by destruct terms.
  - clear Hne. induction terms as [|t terms IH]; simpl; [constructor|].
    simpl in Hwf. apply andb_true_iff in Hwf as [Ht Hterms].
    constructor; [by apply term_text_without_comma|by apply IH].
Qed.

Lemma elem_of_term_lines t z : z ∈ term_lines t ↔ term_denotes t z.
Proof.
  destruct t; simpl.
  - rewrite list_elem_of_singleton. done.
  - rewrite elem_of_seqZ. lia.
Qed.

(** C2: the specification made of the well-formed terms [terms] (at least
    one; each an integer, or two integers joined by one hyphen, with
    whitespace around the term and between an integer and the hyphen) is
    parsed to the lines of its terms, in order: the integer of a single
    term, the integers of the inclusive range of a range term.  A line is
    in the result exactly when some term denotes it.  In particular [5]
    gives 5, [1-3] gives 1, 2, 3 and [1-3,5,7-8] gives 1, 2, 3, 5, 7, 8. *)
Theorem parse_highlight_lines_well_formed (terms : list term) :
  terms ≠ [] → forallb well_formed terms = true →
  parse_highlight_lines (spec_text terms)
  = Some (concat (map term_lines terms))
  ∧ (∀ z, z ∈ concat (map term_lines terms)
          ↔ ∃ t, t ∈ terms ∧ term_denotes t z)
  ∧ parse_highlight_lines (lit "5") = Some [5]
  ∧ parse_highlight_lines (lit "1-3") = Some [1; 2; 3]
  ∧ parse_highlight_lines (lit "1-3,5,7-8") = Some [1; 2; 3; 5; 7; 8].
Proof.
  intros Hne Hwf. split; [|split; [|by repeat split]].
  - rewrite parse_highlight_lines_mapM, split_spec_text by done.
    by rewrite mapM_component_lines_well_formed.
  - intros z. rewrite list_elem_of_In, in_concat. split.
    + intros (lines & Hlines & Hz). apply in_map_iff in Hlines as (t & <- & Ht).
      exists t. split; [by apply list_elem_of_In|].
      by apply elem_of_term_lines, list_elem_of_In.
    + intros (t & Ht & Hz). exists (term_lines t). split.
      * apply in_map, list_elem_of_In, Ht.
      * by apply list_elem_of_In, elem_of_term_lines.
Qed.

Lemma parse_highlight_lines_well_formed_witness :
  parse_highlight_lines (lit "1 - 3, 5 ,7-8") = Some [1; 2; 3; 5; 7; 8].
Proof.
  exact (proj1 (parse_highlight_lines_well_formed
    [Range [] (lit "1") (lit " ") (lit " ") (lit "3") [];
     Single (lit " ") (lit "5") (lit " ");
     Range [] (lit "7") [] [] (lit "8") []]
    ltac:(discriminate) eq_refl)).
Defined.

(** ** Components of any specification *)

Lemma split_pair sep s n0 n1 :
  split sep s = [n0; n1] → s = n0 ++ sep :: n1.
Proof. intros H. by rewrite <- (join_split sep s), H. Qed.

Lemma py_int_pair_not_integer component n0 n1 :
  split HYPHEN component = [n0; n1] → is_Some (py_int n0) →
  py_int component = None.
Proof.
  intros Hsplit Hn0. rewrite (split_pair _ _ _ _ Hsplit).
  by apply py_int_then_hyphen.
Qed.

Lemma component_lines_integer component n :
  py_int (strip component) = Some n → component_lines component = Some [n].
Proof. unfold component_lines. by intros ->. Qed.

Lemma component_lines_pair component n0 n1 a b :
  split HYPHEN (strip component) = [n0; n1] →
  py_int n0 = Some a → py_int n1 = Some b →
  component_lines component = Some (py_range a (b + 1)).
Proof.
  intros Hsplit Ha Hb. unfold component_lines.
  rewrite (py_int_pair_not_integer _ _ _ Hsplit) by by rewrite Ha.
  by rewrite Hsplit, Ha, Hb.
Qed.

Lemma component_lines_Some component added :
  component_lines component = Some added →
  (∃ n, py_int (strip component) = Some n ∧ added = [n])
  ∨ (∃ n0 n1 a b, split HYPHEN (strip component) = [n0; n1]
       ∧ py_int n0 = Some a ∧ py_int n1 = Some b
       ∧ added = py_range a (b + 1)).
Proof.
  unfold component_lines.
  destruct (py_int (strip component)) as [n|] eqn:Hint.
  { intros [= <-]. left. by exists n. }
  destruct (split HYPHEN (strip component)) as [|n0 [|n1 [|? ?]]]; try done.
  destruct (py_int n0) as [a|] eqn:Ha; [|done].
  destruct (py_int n1) as [b|] eqn:Hb; [|done].
  intros [= <-]. right. by exists n0, n1, a, b.
Qed.

Lemma component_lines_None component :
  component_lines component = None
  ↔ ¬ bare_integer component ∧ ¬ integer_pair component.
Proof.
  unfold bare_integer, integer_pair. split.
  - intros Hnone. split.
    + intros [n Hn]. by rewrite (component_lines_integer _ _ Hn) in Hnone.
    + intros (n0 & n1 & Hsplit & [a Ha] & [b Hb]).
      by rewrite (component_lines_pair _ _ _ _ _ Hsplit Ha Hb) in Hnone.
  - intros [Hint Hpair].
    destruct (component_lines component) as [added|] eqn:Hlines; [|done].
    apply component_lines_Some in Hlines
      as [(n & Hn & _)|(n0 & n1 & a & b & Hsplit & Ha & Hb & _)].
    + exfalso. apply Hint. by exists n.
    + exfalso. apply Hpair. exists n0, n1. by rewrite Ha, Hb.
Qed.

Lemma elem_of_py_range a b z : z ∈ py_range a (b + 1) ↔ a ≤ z ≤ b.
Proof. unfold py_range. rewrite elem_of_seqZ. lia. Qed.

Lemma elem_of_component_lines component added z :
  component_lines component = Some added →
  z ∈ added ↔ component_denotes component z.
Proof.
  intros Hlines. unfold component_denotes.
  destruct (component_lines_Some _ _ Hlines)
    as [(n & Hn & ->)|(n0 & n1 & a & b & Hsplit & Ha & Hb & ->)].
  - rewrite list_elem_of_singleton. split.
    + intros ->. by left.
    + intros [Hz|(m0 & m1 & a & b & Hsplit & Ha & _)]; [congruence|].
      rewrite (py_int_pair_not_integer _ _ _ Hsplit) in Hn; [done|].
      by rewrite Ha.
  - rewrite elem_of_py_range. split.
    + intros Hz. right. by exists n0, n1, a, b.
    + intros [Hz|(m0 & m1 & a' & b' & Hsplit' & Ha' & Hb' & Hz)].
      * rewrite (py_int_pair_not_integer _ _ _ Hsplit) in Hz; [done|].
        by rewrite Ha.
      * congruence.
Qed.

Lemma parse_components_app pre post lines :
  parse_components (pre ++ post) lines
  = match parse_components pre lines with
    | Some lines' => parse_components post lines'
    | None => None
    end.
Proof.
  revert lines. induction pre as [|c pre IH]; intros lines; [done|].
  rewrite <- app_comm_cons, !parse_components_cons.
  destruct (component_lines c); [apply IH|done].
Qed.

(** C5: a component that is a pair of integers [a] and [b] joined by a
    hyphen, with [a] greater than [b], adds no line: one turn of the loop
    on it leaves [lines] as it was, and the specification is parsed as the
    specification without that component. *)
Theorem descending_range_adds_no_lines
    (spec component n0 n1 : str) (pre post : list str) (a b : Z) :
  split COMMA spec = pre ++ component :: post →
  split HYPHEN (strip component) = [n0; n1] →
  py_int n0 = Some a → py_int n1 = Some b → a > b →
  component_lines component = Some []
  ∧ (∀ lines, parse_components (component :: post) lines
              = parse_components post lines)
  ∧ parse_highlight_lines spec = parse_components (pre ++ post) [].
Proof.
  intros Hspec Hsplit Ha Hb Hgt.
  assert (component_lines component = Some []) as Hnone.
  { rewrite (component_lines_pair _ _ _ _ _ Hsplit Ha Hb).
    unfold py_range. rewrite seqZ_nil; [done|lia]. }
  assert (∀ lines, parse_components (component :: post) lines
                   = parse_components post lines) as Hturn.
  { intros lines. rewrite parse_components_cons, Hnone.
    by rewrite app_nil_r. }
  repeat split; try done.
  unfold parse_highlight_lines. rewrite Hspec, !parse_components_app.
  destruct (parse_components pre []); [apply Hturn|done].
Qed.

Lemma descending_range_adds_no_lines_witness :
  parse_highlight_lines (lit "1,5-3,7") = parse_highlight_lines (lit "1,7")
  ∧ parse_highlight_lines (lit "1,5-3,7") = Some [1; 7].
Proof.
  pose proof (descending_range_adds_no_lines
    (lit "1,5-3,7") (lit "5-3") (lit "5") (lit "3") [lit "1"] [lit "7"] 5 3
    eq_refl eq_refl eq_refl eq_refl ltac:(lia)) as (_ & _ & H).
  split; [exact H|]. etransitivity; [exact H|]. reflexivity.
Defined.

Lemma elem_of_concat_component_lines components added z :
  Forall2 (λ c l, component_lines c = Some l) components added →
  z ∈ concat added ↔ ∃ c, c ∈ components ∧ component_denotes c z.
Proof.
  induction 1 as [|c l components added Hc _ IH]; simpl.
  - split; [by intros ?%elem_of_nil | by intros (c & ?%elem_of_nil & _)].
  - rewrite elem_of_app, IH, (elem_of_component_lines _ _ _ Hc). split.
    + intros [Hz|(c' & Hin & Hz)].
      * exists c. split; [by left|done].
      * exists c'. split; [by right|done].
    + intros (c' & Hin & Hz). apply elem_of_cons in Hin as [->|Hin].
      * by left.
      * right. by exists c'.
Qed.

(** The lines of an accepted specification are the lines its components
    stand for. *)
Lemma elem_of_parse_highlight_lines spec lines z :
  parse_highlight_lines spec = Some lines →
  z ∈ lines ↔ ∃ c, c ∈ split COMMA spec ∧ component_denotes c z.
Proof.
  rewrite parse_highlight_lines_mapM. intros H.
  apply fmap_Some in H as (added & Hadded & ->).
  apply mapM_Some in Hadded.
  by apply elem_of_concat_component_lines.
Qed.

(** C6, as the code has it: the lines of an accepted specification are
    exactly the integers its components stand for, the value of an integer
    component and the integers of the inclusive range of a pair; they are
    all positive exactly when every integer component is positive and
    every pair [a], [b] with [a] at most [b] has a positive [a].  Nothing
    in the parser asks for that. *)
Theorem parse_highlight_lines_elements (spec : str) (lines : list Z) :
  parse_highlight_lines spec = Some lines →
  (∀ z, z ∈ lines
        ↔ ∃ c, c ∈ split COMMA spec ∧ component_denotes c z)
  ∧ (Forall (λ z, 0 < z) lines
     ↔ ∀ c, c ∈ split COMMA spec →
         (∀ n, py_int (strip c) = Some n → 0 < n)
         ∧ (∀ n0 n1 a b, split HYPHEN (strip c) = [n0; n1] →
              py_int n0 = Some a → py_int n1 = Some b → a ≤ b → 0 < a)).
Proof.
  intros Hparse.
  pose proof (λ z, elem_of_parse_highlight_lines spec lines z Hparse) as Hin.
  split; [done|]. rewrite Forall_forall. split.
  - intros Hpos c Hc. split.
    + intros n Hn. apply Hpos, Hin. exists c. split; [done|]. by left.
    + intros n0 n1 a b Hsplit Ha Hb Hab. apply Hpos, Hin.
      exists c. split; [done|]. right. exists n0, n1, a, b.
      repeat split; done.
  - intros Hcomp z Hz. apply Hin in Hz as (c & Hc & Hz).
    destruct (Hcomp c Hc) as [Hint Hpair].
    destruct Hz as [Hz|(n0 & n1 & a & b & Hsplit & Ha & Hb & Hz)].
    + by apply Hint.
    + pose proof (Hpair n0 n1 a b Hsplit Ha Hb). lia.
Qed.

Lemma parse_highlight_lines_elements_witness :
  parse_highlight_lines (lit "2-4, 9") = Some [2; 3; 4; 9]
  ∧ (3 ∈ [2; 3; 4; 9]
     ↔ ∃ c, c ∈ split COMMA (lit "2-4, 9") ∧ component_denotes c 3).
Proof.
  split; [reflexivity|].
  exact (proj1 (parse_highlight_lines_elements (lit "2-4, 9") [2; 3; 4; 9]
                  eq_refl) 3).
Defined.

(** C6 as stated fails: the specification [0] is accepted and gives the
    line 0, and [-5] is accepted and gives the line -5. *)
Lemma parse_highlight_lines_accepts_non_positive :
  parse_highlight_lines (lit "0") = Some [0]
  ∧ parse_highlight_lines (lit "-5") = Some [-5]
  ∧ ¬ (∀ spec lines, parse_highlight_lines spec = Some lines →
         Forall (λ z, 0 < z) lines).
Proof.
  split; [done|]. split; [done|]. intros H.
  specialize (H (lit "0") [0] eq_refl).
  apply Forall_cons in H as [H _]. lia.
Qed.

(** ** [prepare] *)

Example sample_prepare_ok :
  sample_prepare
    {| attrib := {[ lit "language" := lit "python";
                    lit "highlight-lines" := lit "1-3,5" ]};
       text := Some (lit "x = 1") |}
  = Ok tt.
Proof. vm_compute. reflexivity. Qed.

Lemma component_lines_empty component :
  strip component = [] → component_lines component = None.
Proof. unfold component_lines. by intros ->. Qed.

Lemma component_lines_non_numeric component c :
  c ∈ strip component → numeric_char c = false →
  component_lines component = None.
Proof.
  intros Hin Hc. apply component_lines_None.
  assert (∀ s n, c ∈ s → py_int s ≠ Some n) as Hint.
  { intros s n Hs Hn. apply py_int_numeric in Hn.
    rewrite forallb_forall in Hn. apply list_elem_of_In, Hn in Hs.
    congruence. }
  split.
  - intros [n Hn]. by eapply Hint.
  - intros (n0 & n1 & Hsplit & [a Ha] & [b Hb]).
    rewrite (split_pair _ _ _ _ Hsplit) in Hin.
    apply elem_of_app in Hin as [Hin|Hin]; [by eapply Hint|].
    apply elem_of_cons in Hin as [->|Hin]; [done|by eapply Hint].
Qed.

Lemma parse_highlight_lines_None spec :
  parse_highlight_lines spec = None
  ↔ ∃ c, c ∈ split COMMA spec ∧ component_lines c = None.
Proof.
  rewrite parse_highlight_lines_mapM, fmap_None, mapM_None, Exists_exists.
  done.
Qed.




Section PrepareProperties.

Variable check_attribs : Element → list str → list str → Result unit.
Variable get_string_attrib : Element → str → option str → option str.
Variable LexerClass : Type.
Variable get_lexer_by_name : str → option LexerClass.
Variable get_all_lexers : list lexer_info.

Local Abbreviation prepare' :=
  (prepare check_attribs get_string_attrib LexerClass get_lexer_by_name
     get_all_lexers).
Local Abbreviation check_language' :=
  (check_language LexerClass get_lexer_by_name get_all_lexers).
Local Abbreviation source_file_name_of element :=
  (get_string_attrib element (lit "source-file-name")
     SOURCE_FILE_NAME_DEFAULT).

(** [prepare] raises exactly when one of its four checks does. *)
Lemma prepare_raises element :
  raises (prepare' element)
  = raises (check_attribs element [] optional_attribs)
    || raises (check_language'
                 (get_string_attrib element (lit "language")
                    LANGUAGE_DEFAULT))
    || raises (check_source_file_name
                 (get_string_attrib element (lit "source-file-name")
                    SOURCE_FILE_NAME_DEFAULT) element)
    || raises (check_highlight_lines
                 (get_string_attrib element (lit "highlight-lines")
                    HIGHLIGHT_LINES_DEFAULT)).
Proof.
  unfold prepare.
  destruct (check_attribs element [] optional_attribs); [|done]. simpl.
  destruct (check_language _ _ _ _); [|done]. simpl.
  by destruct (check_source_file_name _ _).
Qed.

(** C3: a specification with a component that is neither an integer nor
    a pair of integers joined by one hyphen is rejected as a whole:
    [parse_highlight_lines] gives [None], whatever the other components
    are.  An empty component, as in the empty specification, and a
    component with a character that no integer is written with, are such
    components.  [prepare] raises for an element whose [highlight-lines]
    attribute is such a specification. *)
Theorem malformed_component_rejects_specification (spec component : str) :
  component ∈ split COMMA spec →
  (¬ bare_integer component ∧ ¬ integer_pair component)
  ∨ strip component = []
  ∨ (∃ c, c ∈ strip component ∧ numeric_char c = false) →
  parse_highlight_lines spec = None
  ∧ check_highlight_lines (Some spec)
    = Raise (Exception could_not_parse_message)
  ∧ ∀ element,
      get_string_attrib element (lit "highlight-lines")
        HIGHLIGHT_LINES_DEFAULT = Some spec →
      raises (prepare' element) = true.
Proof.
  intros Hin Hbad.
  assert (parse_highlight_lines spec = None) as Hnone.
  { apply parse_highlight_lines_None. exists component. split; [done|].
    destruct Hbad as [Hbad|[Hbad|(c & Hc & Hnum)]].
    - by apply component_lines_None.
    - by apply component_lines_empty.
    - by eapply component_lines_non_numeric. }
  assert (check_highlight_lines (Some spec)
          = Raise (Exception could_not_parse_message)) as Hcheck.
  { unfold check_highlight_lines. by rewrite Hnone. }
  repeat split; try done.
  intros element Hattr. rewrite prepare_raises, Hattr, Hcheck.
  simpl. by rewrite orb_true_r.
Qed.

(** C7, what the code does: for an element whose [language] attribute
    names no known lexer, [prepare] raises, but the exception is the
    [TypeError] of [map], called with its arguments in the wrong order; it
    is not the exception whose message names the language and the allowed
    ones. *)
Theorem prepare_unknown_language_raises_type_error
    (element : Element) (language : str) :
  check_attribs element [] optional_attribs = Ok tt →
  get_string_attrib element (lit "language") LANGUAGE_DEFAULT
  = Some language →
  get_lexer_by_name language = None →
  prepare' element
  = Raise (TypeError (lit "'function' object is not iterable"))
  ∧ ∀ allowed,
      prepare' element
      ≠ Raise (Exception (unknown_language_message language allowed)).
Proof.
  intros Hattribs Hlanguage Hlexer.
  assert (prepare' element
          = Raise (TypeError (lit "'function' object is not iterable")))
    as Hraise.
  { unfold prepare. rewrite Hattribs, Hlanguage. simpl. by rewrite Hlexer. }
  split; [done|]. intros allowed. by rewrite Hraise.
Qed.


End PrepareProperties.

Lemma malformed_component_rejects_specification_witness :
  parse_highlight_lines (lit "1,a-3") = None
  ∧ raises (sample_prepare
              {| attrib := {[ lit "highlight-lines" := lit "1,a-3" ]};
                 text := None |}) = true.
Proof.
  assert (lit "a-3" ∈ split COMMA (lit "1,a-3")) as Hin.
  { vm_compute. apply list_elem_of_further, list_elem_of_here. }
  assert (∃ c, c ∈ strip (lit "a-3") ∧ numeric_char c = false) as Hbad.
  { exists "a"%char. split; [|reflexivity].
    vm_compute. apply list_elem_of_here. }
  pose proof (malformed_component_rejects_specification
    accept_attribs lookup_string_attrib unit python_only python_lexers
    (lit "1,a-3") (lit "a-3") Hin (or_intror (or_intror Hbad)))
    as (Hnone & _ & Hprepare).
  split; [exact Hnone|]. apply Hprepare. reflexivity.
Defined.

Lemma prepare_unknown_language_raises_type_error_witness :
  sample_prepare element_with_unknown_language
  = Raise (TypeError (lit "'function' object is not iterable")).
Proof.
  apply (prepare_unknown_language_raises_type_error
           accept_attribs lookup_string_attrib unit python_only
           python_lexers element_with_unknown_language (lit "nosuchlang"));
    reflexivity.
Defined.


(** * Further properties *)

(** ** Specifications joined by a comma *)

Lemma parse_components_lines components lines :
  parse_components components lines
  = app lines <$> parse_components components [].
Proof.
  rewrite !parse_components_mapM.
  by destruct (mapM component_lines components).
Qed.

Lemma parse_highlight_lines_app_comma spec1 spec2 :
  parse_highlight_lines (spec1 ++ COMMA :: spec2)
  = match parse_highlight_lines spec1, parse_highlight_lines spec2 with
    | Some lines1, Some lines2 => Some (lines1 ++ lines2)
    | _, _ => None
    end.
Proof.
  unfold parse_highlight_lines.
  rewrite split_app_sep, parse_components_app.
  destruct (parse_components (split COMMA spec1) []) as [lines1|]; [|done].
  rewrite parse_components_lines.
  by destruct (parse_components (split COMMA spec2) []).
Qed.

(** X1: a specification made of two specifications joined by a comma is
    accepted exactly when both are, and its lines are the lines of the
    first followed by the lines of the second. *)
Theorem parse_highlight_lines_comma (spec1 spec2 : str) :
  parse_highlight_lines (spec1 ++ COMMA :: spec2)
  = match parse_highlight_lines spec1, parse_highlight_lines spec2 with
    | Some lines1, Some lines2 => Some (lines1 ++ lines2)
    | _, _ => None
    end.
Proof. apply parse_highlight_lines_app_comma. Qed.

(** X2: a comma with nothing on one side rejects the specification: one
    at the start, one at the end, or two in a row. *)
Theorem parse_highlight_lines_stray_comma (spec1 spec2 : str) :
  parse_highlight_lines (COMMA :: spec2) = None
  ∧ parse_highlight_lines (spec1 ++ [COMMA]) = None
  ∧ parse_highlight_lines (spec1 ++ COMMA :: COMMA :: spec2) = None.
Proof.
  split; [|split].
  - change (COMMA :: spec2) with ([] ++ COMMA :: spec2).
    by rewrite parse_highlight_lines_app_comma.
  - rewrite parse_highlight_lines_app_comma.
    by destruct (parse_highlight_lines spec1).
  - rewrite parse_highlight_lines_app_comma.
    change (COMMA :: spec2) with ([] ++ COMMA :: spec2).
    rewrite parse_highlight_lines_app_comma.
    by destruct (parse_highlight_lines spec1).
Qed.

(** ** Whitespace around a specification *)

Lemma lstrip_nil_blank s : lstrip s = [] ↔ blank s = true.
Proof.
  unfold blank. induction s as [|c s IH]; simpl; [done|].
  destruct (char_isspace c); simpl; [done|]. split; discriminate.
Qed.

Lemma lstrip_app s tail : lstrip s ≠ [] → lstrip (s ++ tail) = lstrip s ++ tail.
Proof.
  induction s as [|c s IH]; simpl; [done|].
  destruct (char_isspace c); [apply IH|done].
Qed.

Lemma lstrip_decompose s : ∃ ws, s = ws ++ lstrip s ∧ blank ws = true.
Proof.
  induction s as [|c s (ws & Hs & Hws)]; simpl; [by exists []|].
  destruct (char_isspace c) eqn:Hc.
  - exists (c :: ws). split; [simpl; congruence|].
    unfold blank in *. simpl. by rewrite Hc.
  - by exists [].
Qed.

Lemma blank_app ws1 ws2 : blank (ws1 ++ ws2) = blank ws1 && blank ws2.
Proof. apply forallb_app. Qed.

Lemma strip_blank ws : blank ws = true → strip ws = [].
Proof.
  intros H. unfold strip. apply lstrip_nil_blank in H. by rewrite H.
Qed.

(** Whitespace at both ends does not change what [strip] gives. *)
Lemma strip_padded_any lead s trail :
  blank lead = true → blank trail = true →
  strip (lead ++ s ++ trail) = strip s.
Proof.
  intros Hlead Htrail. unfold strip. rewrite lstrip_blank by done.
  destruct (lstrip s) as [|c rest] eqn:Hs.
  - apply lstrip_nil_blank in Hs.
    assert (lstrip (s ++ trail) = []) as ->; [|done].
    apply lstrip_nil_blank. by rewrite blank_app, Hs, Htrail.
  - rewrite lstrip_app by by rewrite Hs.
    rewrite Hs. by apply rstrip_blank.
Qed.

Lemma strip_decompose s :
  ∃ lead trail, s = lead ++ strip s ++ trail
                ∧ blank lead = true ∧ blank trail = true.
Proof.
  destruct (lstrip_decompose s) as (lead & Hs & Hlead).
  destruct (lstrip_decompose (rev (lstrip s))) as (trail & Hr & Htrail).
  exists lead, (rev trail). split; [|split; [done|by rewrite blank_rev]].
  unfold strip, rstrip. rewrite <- rev_app_distr, <- Hr.
  by rewrite rev_involutive.
Qed.

Lemma component_lines_padded component' component :
  padded component' component →
  component_lines component' = component_lines component.
Proof.
  intros (lead & trail & Hlead & Htrail & ->). unfold component_lines.
  by rewrite strip_padded_any.
Qed.

Lemma padded_refl component : padded component component.
Proof. exists [], []. by rewrite app_nil_r. Qed.

Lemma split_padded_l lead s :
  blank lead = true →
  Forall2 padded (split COMMA (lead ++ s)) (split COMMA s).
Proof.
  unfold blank. induction lead as [|c lead IH]; simpl; intros Hlead.
  - apply Forall2_same_length_lookup. split; [done|].
    intros i x y Hx Hy. simplify_eq. apply padded_refl.
  - apply andb_true_iff in Hlead as [Hc Hlead].
    rewrite decide_False by by apply space_not_comma.
    specialize (IH Hlead).
    pose proof (split_not_nil COMMA (lead ++ s)) as Hne.
    destruct (split COMMA (lead ++ s)) as [|h t]; [done|].
    inversion IH as [|? h0 ? t0 (w1 & w2 & Hw1 & Hw2 & ->) Ht]; subst.
    constructor; [|done]. exists (c :: w1), w2.
    split; [|done]. unfold blank in *. simpl. by rewrite Hc.
Qed.

Lemma split_padded_r s trail :
  blank trail = true →
  Forall2 (λ x y, ∃ w, blank w = true ∧ x = y ++ w)
    (split COMMA (s ++ trail)) (split COMMA s).
Proof.
  intros Htrail. induction s as [|c s IH]; simpl.
  - rewrite split_without_sep by (by apply blank_without; [left|]).
    constructor; [|constructor]. by exists trail.
  - destruct (decide (c = COMMA)).
    + constructor; [|done]. by exists [].
    + pose proof (split_not_nil COMMA s) as Hne.
      destruct (split COMMA s) as [|h0 t0]; [done|].
      inversion IH as [|h ? t ? (w & Hw & Hh) Ht]; subst.
      constructor; [|done]. by exists w.
Qed.

Lemma mapM_component_lines_padded components' components :
  Forall2 padded components' components →
  mapM component_lines components' = mapM component_lines components.
Proof.
  induction 1 as [|c' c cs' cs Hc _ IH]; [done|].
  cbn [mapM]. by rewrite (component_lines_padded _ _ Hc), IH.
Qed.

(** X3: whitespace before and after a specification, and so before its
    first term and after its last, does not change what it is parsed to;
    the same holds for the whitespace around one component in a turn of
    the loop. *)
Theorem parse_highlight_lines_padded (lead spec trail : str) :
  blank lead = true → blank trail = true →
  parse_highlight_lines (lead ++ spec ++ trail) = parse_highlight_lines spec
  ∧ component_lines (lead ++ spec ++ trail) = component_lines spec.
Proof.
  intros Hlead Htrail. split.
  - rewrite !parse_highlight_lines_mapM. f_equal.
    transitivity (mapM component_lines (split COMMA (spec ++ trail))).
    + apply mapM_component_lines_padded. by apply split_padded_l.
    + apply mapM_component_lines_padded.
      eapply Forall2_impl; [by apply split_padded_r|].
      intros x y (w & Hw & ->). exists [], w. by rewrite Hw.
  - apply component_lines_padded. by exists lead, trail.
Qed.

Lemma parse_highlight_lines_padded_witness :
  parse_highlight_lines (lit "  1-3, 5 ")
  = parse_highlight_lines (lit "1-3, 5").
Proof.
  exact (proj1 (parse_highlight_lines_padded (lit "  ") (lit "1-3, 5")
                  (lit " ") eq_refl eq_refl)).
Defined.

(** ** The characters of an accepted specification *)

Lemma elem_of_split sep s c :
  c ∈ s → c = sep ∨ ∃ piece, piece ∈ split sep s ∧ c ∈ piece.
Proof.
  induction s as [|d s IH]; [by intros ?%elem_of_nil|].
  intros Hc. simpl. pose proof (split_not_nil sep s) as Hne.
  destruct (decide (d = sep)) as [->|Hd].
  - apply elem_of_cons in Hc as [->|Hc]; [by left|].
    destruct (IH Hc) as [->|(piece & Hp & Hin)]; [by left|].
    right. exists piece. split; [by right|done].
  - destruct (split sep s) as [|h t]; [done|].
    apply elem_of_cons in Hc as [->|Hc].
    + right. exists (d :: h). split; by left.
    + destruct (IH Hc) as [->|(piece & Hp & Hin)]; [by left|].
      right. apply elem_of_cons in Hp as [->|Hp].
      * exists (d :: h). split; [by left|by right].
      * exists piece. split; [by right|done].
Qed.

Lemma blank_elem_of ws c : blank ws = true → c ∈ ws → char_isspace c = true.
Proof.
  unfold blank. rewrite forallb_forall. intros H Hc.
  by apply H, list_elem_of_In.
Qed.

(** X4: an accepted specification is written with digits, signs,
    underscores, commas and whitespace only. *)
Theorem parse_highlight_lines_alphabet (spec : str) (lines : list Z) (c : ascii) :
  parse_highlight_lines spec = Some lines → c ∈ spec →
  numeric_char c = true ∨ c = COMMA ∨ char_isspace c = true.
Proof.
  intros Hparse Hc.
  destruct (elem_of_split COMMA spec c Hc) as [->|(piece & Hp & Hin)];
    [by right; left|].
  destruct (component_lines piece) as [added|] eqn:Hpiece.
  2: { assert (parse_highlight_lines spec = None) as Hnone; [|congruence].
       apply parse_highlight_lines_None. by exists piece. }
  destruct (strip_decompose piece) as (lead & trail & Hs & Hlead & Htrail).
  rewrite Hs in Hin.
  apply elem_of_app in Hin as [Hin|Hin];
    [right; right; by apply (blank_elem_of lead)|].
  apply elem_of_app in Hin as [Hin|Hin];
    [|right; right; by apply (blank_elem_of trail)].
  left. destruct (numeric_char c) eqn:Hnum; [done|].
  by rewrite (component_lines_non_numeric piece c Hin Hnum) in Hpiece.
Qed.

Lemma parse_highlight_lines_alphabet_witness :
  parse_highlight_lines (lit "1-3, 5") = Some [1; 2; 3; 5]
  ∧ (numeric_char " "%char = true ∨ " "%char = COMMA
     ∨ char_isspace " "%char = true).
Proof.
  split; [reflexivity|].
  apply (parse_highlight_lines_alphabet (lit "1-3, 5") [1; 2; 3; 5]);
    [reflexivity|].
  vm_compute. do 4 apply list_elem_of_further. apply list_elem_of_here.
Defined.

(** ** Line highlighting on any stream *)

Lemma highlight_lines_from_agree self1 self2 i tokensource :
  hl_color self1 = hl_color self2 →
  (∀ k, i < k ≤ i + Z.of_nat (length tokensource) →
        k ∈ hl_lines self1 ↔ k ∈ hl_lines self2) →
  highlight_lines_from self1 i tokensource
  = highlight_lines_from self2 i tokensource.
Proof.
  intros Hcolor. revert i.
  induction tokensource as [|[t value] tokensource IH]; intros i Hagree;
    [done|].
  cbn [highlight_lines_from length] in *. rewrite Hcolor.
  rewrite (IH (i + 1)) by (intros k Hk; apply Hagree; lia).
  assert (i + 1 ∈ hl_lines self1 ↔ i + 1 ∈ hl_lines self2) as Hhere
    by (apply Hagree; lia).
  destruct (decide (i + 1 ∈ hl_lines self1)) as [H1|H1],
           (decide (i + 1 ∈ hl_lines self2)) as [H2|H2]; tauto || done.
Qed.

(** X5: only the highlighted line numbers from 1 to the length of the
    stream count: two formatters with the same colour whose [hl_lines]
    agree on these numbers yield the same stream.  A line number beyond
    the last line, or below 1, changes nothing. *)
Theorem highlight_lines_ignores_lines_out_of_range
    (self1 self2 : HighlightingHtmlFormatter) (tokensource : list (Z * str)) :
  hl_color self1 = hl_color self2 →
  (∀ k, 1 ≤ k ≤ Z.of_nat (length tokensource) →
        k ∈ hl_lines self1 ↔ k ∈ hl_lines self2) →
  _highlight_lines self1 tokensource = _highlight_lines self2 tokensource.
Proof.
  intros Hcolor Hagree. apply highlight_lines_from_agree; [done|].
  intros k Hk. apply Hagree. lia.
Qed.

Lemma highlight_lines_ignores_lines_out_of_range_witness :
  _highlight_lines {| hl_lines := {[2; 7]}; hl_color := lit "#ff0000" |}
    [(1, lit "a"); (1, lit "b")]
  = _highlight_lines {| hl_lines := {[0; 2]}; hl_color := lit "#ff0000" |}
      [(1, lit "a"); (1, lit "b")].
Proof.
  apply highlight_lines_ignores_lines_out_of_range; [reflexivity|].
  simpl. intros k Hk.
  assert (k = 1 ∨ k = 2) as [-> | ->] by lia; set_solver.
Defined.

Lemma highlight_lines_unchanged self (lines : list str) :
  (∀ k, 1 ≤ k ≤ Z.of_nat (length lines) → k ∉ hl_lines self) →
  _highlight_lines self (map (pair 1) lines) = map (pair 1) lines.
Proof.
  intros Hnone. unfold _highlight_lines.
  rewrite highlight_lines_from_source_lines.
  apply list_eq. intros k. rewrite list_lookup_imap, list_lookup_fmap.
  destruct (lines !! k) as [line|] eqn:Hk; [|done]. simpl.
  unfold line_out. apply lookup_lt_Some in Hk.
  rewrite decide_False; [done|]. apply Hnone. lia.
Qed.

(** X6: when no line number from 1 to the number of lines is highlighted,
    in particular when [hl_lines] is empty, the stream of source lines
    comes out as it went in. *)
Theorem highlight_lines_nothing_highlighted
    (self : HighlightingHtmlFormatter) (lines : list str) :
  (∀ k, 1 ≤ k ≤ Z.of_nat (length lines) → k ∉ hl_lines self) →
  _highlight_lines self (map (pair 1) lines) = map (pair 1) lines.
Proof. apply highlight_lines_unchanged. Qed.

Lemma highlight_lines_nothing_highlighted_witness :
  _highlight_lines {| hl_lines := {[3]}; hl_color := lit "#ff0000" |}
    (map (pair 1) [lit "a"; lit "b"])
  = map (pair 1) [lit "a"; lit "b"].
Proof.
  apply highlight_lines_nothing_highlighted. simpl. intros k Hk.
  rewrite elem_of_singleton. lia.
Defined.

Lemma filter_source_items_from self i (tokensource : list (Z * str)) :
  filter (λ item, item.1 = 1) (highlight_lines_from self i tokensource)
  = imap (λ k item, line_out self (i + Z.of_nat k) item.2) tokensource.
Proof.
  revert i. induction tokensource as [|[t value] tokensource IH]; intros i;
    [done|].
  cbn [highlight_lines_from]. rewrite !filter_app, IH.
  assert (filter (λ item : Z * str, item.1 = 1)
            (if decide (t ≠ 1) then [(t, value)] else []) = []) as ->.
  { destruct (decide (t ≠ 1)); [|done].
    rewrite filter_cons_False by done. done. }
  assert (filter (λ item : Z * str, item.1 = 1)
            (if decide (i + 1 ∈ hl_lines self)
             then [(1, highlighted_line (hl_color self) value)]
             else [(1, value)])
          = [line_out self i value]) as ->.
  { unfold line_out. by destruct (decide (i + 1 ∈ hl_lines self)). }
  simpl. rewrite Z.add_0_r. f_equal.
  apply imap_ext. intros k item _. simpl. f_equal. lia.
Qed.

(** X7: whatever the tags of the stream are, the items the generator
    yields with tag 1 are, in order, one per item of the stream: its value,
    inside the highlight wrapper when its position (from 1) is in
    [hl_lines]; and the generator yields one more item for each item whose
    tag is not 1. *)
Theorem highlight_lines_source_items
    (self : HighlightingHtmlFormatter) (tokensource : list (Z * str)) :
  filter (λ item, item.1 = 1) (_highlight_lines self tokensource)
  = imap (λ k item, line_out self (Z.of_nat k) item.2) tokensource
  ∧ length (_highlight_lines self tokensource)
    = (length tokensource
       + length (filter (λ item, item.1 ≠ 1%Z) tokensource))%nat.
Proof.
  split.
  - unfold _highlight_lines. rewrite filter_source_items_from.
    apply imap_ext. intros k item _. simpl. f_equal.
  - unfold _highlight_lines. generalize 0.
    induction tokensource as [|[t value] tokensource IH]; intros i; [done|].
    cbn [highlight_lines_from]. rewrite !length_app, IH.
    rewrite filter_cons. simpl.
    destruct (decide (t ≠ 1));
      destruct (decide (i + 1 ∈ hl_lines self)); simpl; lia.
Qed.

(** ** From the attribute to the highlighted lines *)

(** X8: for an accepted [highlight-lines] attribute, the formatter that
    [render] builds has the colour of [highlight-lines-color] and
    highlights exactly the lines that the components of the attribute
    stand for: a source line is put inside the wrapper when some component
    stands for its number, and is left as it is otherwise. *)
Theorem render_highlights_the_lines_of_the_attribute
    (highlight_lines highlight_lines_color : str) (lines : list Z) :
  parse_highlight_lines highlight_lines = Some lines →
  ∃ formatter,
    new_HighlightingHtmlFormatter
      (render_formatter_opts (Some highlight_lines) highlight_lines_color)
    = Some formatter
    ∧ hl_color formatter = highlight_lines_color
    ∧ (∀ k, k ∈ hl_lines formatter
            ↔ ∃ c, c ∈ split COMMA highlight_lines ∧ component_denotes c k)
    ∧ ∀ (source : list str) (i : nat) (line : str),
        source !! i = Some line →
        ((∃ c, c ∈ split COMMA highlight_lines
               ∧ component_denotes c (Z.of_nat i + 1)) →
         _highlight_lines formatter (map (pair 1) source) !! i
         = Some (1, highlighted_line highlight_lines_color line))
        ∧ (¬ (∃ c, c ∈ split COMMA highlight_lines
                   ∧ component_denotes c (Z.of_nat i + 1)) →
           _highlight_lines formatter (map (pair 1) source) !! i
           = Some (1, line)).
Proof.
  intros Hparse.
  exists {| hl_lines := list_to_set lines; hl_color := highlight_lines_color |}.
  assert (∀ k, k ∈ (list_to_set lines : gset Z)
               ↔ ∃ c, c ∈ split COMMA highlight_lines
                      ∧ component_denotes c k) as Hset.
  { intros k. rewrite elem_of_list_to_set.
    by apply elem_of_parse_highlight_lines. }
  split; [|split; [done|split; [done|]]].
  { unfold new_HighlightingHtmlFormatter, render_formatter_opts. simpl.
    by rewrite Hparse. }
  intros source i line Hline. unfold _highlight_lines.
  rewrite highlight_lines_from_source_lines, list_lookup_imap, Hline.
  simpl. unfold line_out. simpl. rewrite Z.add_0_l. split.
  - intros Hden. rewrite decide_True; [done|]. by apply Hset.
  - intros Hden. rewrite decide_False; [done|]. by rewrite Hset.
Qed.

Lemma render_highlights_the_lines_of_the_attribute_witness :
  ∃ formatter,
    new_HighlightingHtmlFormatter
      (render_formatter_opts (Some (lit "2-3")) (lit "#ff0000"))
    = Some formatter
    ∧ _highlight_lines formatter (map (pair 1) [lit "a"; lit "b"]) !! 1%nat
      = Some (1, highlighted_line (lit "#ff0000") (lit "b")).
Proof.
  destruct (render_highlights_the_lines_of_the_attribute
              (lit "2-3") (lit "#ff0000") [2; 3] eq_refl)
    as (formatter & Hnew & _ & _ & Hlines).
  exists formatter. split; [exact Hnew|].
  apply (Hlines [lit "a"; lit "b"] 1%nat (lit "b") eq_refl).
  exists (lit "2-3"). split; [vm_compute; apply list_elem_of_here|].
  right. exists (lit "2"), (lit "3"), 2, 3. repeat split; done.
Defined.

(** ** The leading newline of the inner HTML *)

(** X9: [render] takes one line break, and no more, off the start of the
    inner HTML: a line feed, a carriage return, or a carriage return with
    the line feed after it; code that starts with neither is left as it
    is. *)
Theorem strip_leading_newline_takes_one_line_break (code : str) :
  ∃ newline,
    code = newline ++ strip_leading_newline code
    ∧ (newline = [] ∨ newline = [LF] ∨ newline = [CR]
       ∨ newline = [CR; LF])
    ∧ (newline = [] → head code ≠ Some LF ∧ head code ≠ Some CR)
    ∧ (newline = [CR] → head (strip_leading_newline code) ≠ Some LF).
Proof.
  unfold strip_leading_newline, char_at.
  destruct code as [|c0 [|c1 rest]]; simpl.
  - exists []. repeat split; auto; discriminate.
  - destruct (decide (c0 = LF)) as [->|Hlf].
    { exists [LF]. repeat split; auto; discriminate. }
    destruct (decide (c0 = CR)) as [->|Hcr].
    { exists [CR]. repeat split; auto; discriminate. }
    rewrite !bool_decide_eq_false_2 by congruence. simpl.
    exists []. repeat split; auto; congruence.
  - destruct (decide (c0 = CR)) as [->|Hcr].
    + destruct (decide (c1 = LF)) as [->|Hlf].
      { exists [CR; LF]. repeat split; auto; discriminate. }
      rewrite (bool_decide_eq_false_2 (Some c1 = Some LF)) by congruence.
      simpl. exists [CR]. repeat split; auto; try discriminate.
      simpl. congruence.
    + rewrite (bool_decide_eq_false_2 (Some c0 = Some CR)) by congruence.
      simpl. destruct (decide (c0 = LF)) as [->|Hlf].
      { exists [LF]. repeat split; auto; discriminate. }
      rewrite (bool_decide_eq_false_2 (Some c0 = Some LF)) by congruence.
      simpl. exists []. repeat split; auto; congruence.
Qed.

(** ** What [prepare] accepts, and what [render] can rely on *)

Section PrepareAccepts.

Variable check_attribs : Element → list str → list str → Result unit.
Variable get_string_attrib : Element → str → option str → option str.
Variable LexerClass : Type.
Variable get_lexer_by_name : str → option LexerClass.
Variable get_all_lexers : list lexer_info.

Local Abbreviation prepare' :=
  (prepare check_attribs get_string_attrib LexerClass get_lexer_by_name
     get_all_lexers).
Local Abbreviation language_of element :=
  (get_string_attrib element (lit "language") LANGUAGE_DEFAULT).
Local Abbreviation source_file_name_of element :=
  (get_string_attrib element (lit "source-file-name")
     SOURCE_FILE_NAME_DEFAULT).
Local Abbreviation highlight_lines_of element :=
  (get_string_attrib element (lit "highlight-lines")
     HIGHLIGHT_LINES_DEFAULT).

Lemma check_language_Ok language :
  check_language LexerClass get_lexer_by_name get_all_lexers language = Ok tt
  ↔ ∀ name, language = Some name → is_Some (get_lexer_by_name name).
Proof.
  unfold check_language. destruct language as [name|].
  - destruct (get_lexer_by_name name) as [lexer|] eqn:Hlexer; simpl.
    + split; [|done]. intros _ ? [= <-]. by rewrite Hlexer.
    + split; [done|]. intros H. destruct (H name eq_refl) as [? Hsome].
      by rewrite Hlexer in Hsome.
  - split; [|done]. by intros _ ? ?.
Qed.

Lemma check_source_file_name_Ok source_file_name element :
  check_source_file_name source_file_name element = Ok tt
  ↔ (is_Some source_file_name →
     ∀ t, text element = Some t → isspace t = true).
Proof.
  unfold check_source_file_name. destruct source_file_name as [name|].
  - destruct (text element) as [t|].
    + destruct (isspace t) eqn:Hsp; simpl.
      * split; [|done]. by intros _ _ ? [= <-].
      * split; [done|]. intros H.
        specialize (H (mk_is_Some _ _ eq_refl) t eq_refl). congruence.
    + split; [|done]. by intros _ _ ? ?.
  - split; [|done]. by intros _ [? ?].
Qed.

Lemma check_highlight_lines_Ok highlight_lines :
  check_highlight_lines highlight_lines = Ok tt
  ↔ ∀ spec, highlight_lines = Some spec →
      is_Some (parse_highlight_lines spec).
Proof.
  unfold check_highlight_lines. destruct highlight_lines as [spec|].
  - destruct (parse_highlight_lines spec) as [lines|] eqn:Hparse.
    + split; [|done]. intros _ ? [= <-]. by rewrite Hparse.
    + split; [done|]. intros H. destruct (H spec eq_refl) as [? Hsome].
      by rewrite Hparse in Hsome.
  - split; [|done]. by intros _ ? ?.
Qed.

Lemma prepare_Ok element :
  prepare' element = Ok tt
  ↔ check_attribs element [] optional_attribs = Ok tt
    ∧ (∀ name, language_of element = Some name →
         is_Some (get_lexer_by_name name))
    ∧ (is_Some (source_file_name_of element) →
       ∀ t, text element = Some t → isspace t = true)
    ∧ (∀ spec, highlight_lines_of element = Some spec →
         is_Some (parse_highlight_lines spec)).
Proof.
  rewrite <- check_language_Ok, <- check_source_file_name_Ok,
    <- check_highlight_lines_Ok.
  unfold prepare.
  destruct (check_attribs element [] optional_attribs) as [[]|e]; simpl.
  2: { split; [done|]. by intros [? _]. }
  destruct (check_language _ _ _ _) as [[]|e]; simpl.
  2: { split; [done|]. by intros (_ & ? & _). }
  destruct (check_source_file_name _ _) as [[]|e]; simpl.
  2: { split; [done|]. by intros (_ & _ & ? & _). }
  split; [done|]. by intros (_ & _ & _ & ?).
Qed.

(** X11: once [prepare] has accepted an element, the lookups of [render]
    do not fail: the lexer is found whether [no-highlight] is set or not,
    and the formatter gets a list of lines.  With [no-highlight] set, the
    pass-through lexer is used and the language is not looked up. *)
Theorem render_lookups_succeed_after_prepare
    (element : Element) (no_highlight : bool) (highlight_lines_color : str) :
  prepare' element = Ok tt →
  is_Some (choose_lexer LexerClass get_lexer_by_name (language_of element)
             no_highlight)
  ∧ is_Some (new_HighlightingHtmlFormatter
               (render_formatter_opts (highlight_lines_of element)
                  highlight_lines_color))
  ∧ choose_lexer LexerClass get_lexer_by_name (language_of element) true
    = Some (PassThrough new_NoHighlightingLexer).
Proof.
  intros Hok. apply prepare_Ok in Hok as (_ & Hlang & _ & Hlines).
  split; [|split].
  - unfold choose_lexer. destruct (language_of element) as [name|]; [|done].
    destruct no_highlight; simpl; [done|].
    destruct (Hlang name eq_refl) as [lexer ->]. done.
  - unfold new_HighlightingHtmlFormatter, render_formatter_opts.
    destruct (highlight_lines_of element) as [spec|]; simpl; [|done].
    destruct (Hlines spec eq_refl) as [lines ->]. done.
  - unfold choose_lexer. by destruct (language_of element).
Qed.

End PrepareAccepts.

Lemma render_lookups_succeed_after_prepare_witness :
  sample_prepare element_with_language_and_lines = Ok tt
  ∧ is_Some (choose_lexer unit python_only
               (lookup_string_attrib element_with_language_and_lines
                  (lit "language") None) false)
  ∧ is_Some (new_HighlightingHtmlFormatter
               (render_formatter_opts
                  (lookup_string_attrib element_with_language_and_lines
                     (lit "highlight-lines") None)
                  (lit "#ff0000"))).
Proof.
  split; [reflexivity|].
  destruct (render_lookups_succeed_after_prepare
              accept_attribs lookup_string_attrib unit python_only
              python_lexers element_with_language_and_lines false
              (lit "#ff0000") eq_refl) as (Hlexer & Hformatter & _).
  split; [exact Hlexer|exact Hformatter].
Defined.

(** ** Code from a file *)

Lemma replace_char_Forall (P : ascii → Prop) old new s :
  Forall P new → Forall (λ c, c ≠ old → P c) s →
  Forall P (replace_char old new s).
Proof.
  intros Hnew. unfold replace_char.
  induction 1 as [|c s Hc _ IH]; simpl; [constructor|].
  apply Forall_app. split; [|done].
  destruct (decide (c = old)); [done|]. constructor; [auto|constructor].
Qed.

Lemma escape_without_markup s :
  Forall (λ c, markup_char c = false) (escape s).
Proof.
  unfold escape.
  set (s1 := replace_char "&"%char (lit "&amp;") s).
  set (s2 := replace_char "<"%char (lit "&lt;") s1).
  set (s3 := replace_char ">"%char (lit "&gt;") s2).
  set (s4 := replace_char DQUOTE (lit "&quot;") s3).
  assert (Forall (λ c, c ≠ "<"%char) s2) as H2.
  { apply replace_char_Forall; [by repeat constructor|].
    apply Forall_forall. auto. }
  assert (Forall (λ c, c ≠ "<"%char ∧ c ≠ ">"%char) s3) as H3.
  { apply replace_char_Forall; [by repeat constructor|].
    eapply Forall_impl; [exact H2|]. auto. }
  assert (Forall (λ c, (c ≠ "<"%char ∧ c ≠ ">"%char) ∧ c ≠ DQUOTE) s4)
    as H4.
  { apply replace_char_Forall; [by repeat constructor|].
    eapply Forall_impl; [exact H3|]. auto. }
  assert (Forall (λ c, ((c ≠ "<"%char ∧ c ≠ ">"%char) ∧ c ≠ DQUOTE)
                       ∧ c ≠ "'"%char)
            (replace_char "'"%char (lit "&#x27;") s4)) as H5.
  { apply replace_char_Forall; [by repeat constructor|].
    eapply Forall_impl; [exact H4|]. auto. }
  eapply Forall_impl; [exact H5|].
  intros c [[[Hlt Hgt] Hdq] Hsq]. unfold markup_char.
  by rewrite !bool_decide_eq_false_2.
Qed.

Lemma fold_left_app_concat (lines : list str) code :
  fold_left (λ code line, code ++ line) lines code = code ++ concat lines.
Proof.
  revert code. induction lines as [|line lines IH]; intros code; simpl.
  - by rewrite app_nil_r.
  - by rewrite IH, app_assoc.
Qed.

Section RenderSourceProperties.

Variable path_join : str → str → str.
Variable path_exists : str → bool.
Variable readlines : str → Result (list str).
Variable inner_html : Element → str.

Local Abbreviation render_code' :=
  (render_code path_join path_exists readlines inner_html).

(** X12: with a [source-file-name], [render] raises for a path that does
    not exist, with a message that holds the path; for a file it can read,
    the code it hands on is the content of the file, through the chopping
    of newlines and then escaped, and has none of the characters [<], [>],
    the double quote and the single quote. *)
Theorem render_code_from_file
    (source_file_name question_path : str) (element : Element) :
  (path_exists (path_join question_path source_file_name) = false →
   render_code' (Some source_file_name) question_path element
   = Raise (Exception
              (unknown_file_message
                 (path_join question_path source_file_name))))
  ∧ (path_exists (path_join question_path source_file_name) = true →
     ∀ lines,
       readlines (path_join question_path source_file_name) = Ok lines →
       render_code' (Some source_file_name) question_path element
       = Ok (escape (chop_ending_newlines (concat lines)))
       ∧ ∀ code,
           render_code' (Some source_file_name) question_path element
           = Ok code →
           Forall (λ c, markup_char c = false) code).
Proof.
  unfold render_code. split.
  - by intros ->.
  - intros -> lines ->. simpl. rewrite fold_left_app_concat. simpl.
    split; [done|]. intros code [= <-]. apply escape_without_markup.
Qed.

End RenderSourceProperties.

Lemma render_code_from_file_witness :
  render_code sample_path_join sample_path_exists sample_readlines
    sample_inner_html (Some (lit "code.html")) (lit "q")
    element_with_file_and_code
  = Ok (lit "&lt;b&gt;x&lt;/b&gt;" ++ [LF] ++ lit "a &amp; b" ++ [LF])
  ∧ render_code sample_path_join sample_path_exists sample_readlines
      sample_inner_html (Some (lit "other.html")) (lit "q")
      element_with_file_and_code
    = Raise (Exception (unknown_file_message (lit "q/other.html"))).
Proof.
  split.
  - destruct (render_code_from_file sample_path_join sample_path_exists
                sample_readlines sample_inner_html (lit "code.html") (lit "q")
                element_with_file_and_code) as [_ Hfile].
    destruct (Hfile eq_refl _ eq_refl) as [Hcode _].
    etransitivity; [exact Hcode|]. reflexivity.
  - destruct (render_code_from_file sample_path_join sample_path_exists
                sample_readlines sample_inner_html (lit "other.html")
                (lit "q") element_with_file_and_code) as [Hmissing _].
    exact (Hmissing eq_refl).
Defined.

(** ** Without the attribute *)

(** X13: without a [highlight-lines] attribute the formatter [render]
    builds has no highlighted line and the default colour, whatever
    [highlight-lines-color] is, and the stream of source lines goes
    through [_highlight_lines] unchanged. *)
Theorem render_without_highlight_lines
    (highlight_lines_color : str) (lines : list str) :
  ∃ formatter,
    new_HighlightingHtmlFormatter
      (render_formatter_opts None highlight_lines_color) = Some formatter
    ∧ hl_lines formatter = ∅
    ∧ hl_color formatter = HIGHLIGHT_LINES_COLOR_DEFAULT
    ∧ _highlight_lines formatter (map (pair 1) lines) = map (pair 1) lines.
Proof.
  exists {| hl_lines := ∅; hl_color := HIGHLIGHT_LINES_COLOR_DEFAULT |}.
  repeat split. apply highlight_lines_unchanged.
  intros k _. simpl. apply not_elem_of_empty.
Qed.
